(** * tuber: the subtitle normalizer, the file-name sanitizer and the
      download orchestration of [src/main.go] (single-select variant) and
      [src/unnamed/part_000] (multi-select variant).

    Modelling conventions.
    - A Go [string] is modelled by the sequence of the code points that
      [for _, r := range s] yields on it, that is, by its UTF-8 decoding;
      the texts considered are valid UTF-8.  [len] is the length in bytes
      of the UTF-8 encoding, as in Go.
    - Go [int] values are in [Z]; the numbers that occur (lengths, indices)
      stay far from the machine bounds.
    - [map[string]bool] is a [gmap] whose missing keys read as [false].
    - The operating system and the external tools are a parameter: a record
      of operations on an abstract world.  Every external invocation and
      every file write is recorded in a trace.  What the program prints
      and how it draws its menus is left out.
    - The functions [sanitizeFilename], [extractText], [dedupeVTT],
      [isTimestamp] and [stripTags] have the same text in both variants
      and are modelled once. *)

From Stdlib Require Import Ascii NArith ZArith.
From stdpp Require Import gmap list strings.

Set Default Proof Using "Type".
Set Warnings "-clear-no-such-hyp".
Open Scope Z_scope.

(** ** Go strings *)

Module GoString.

Abbreviation rune := N.
Abbreviation gostring := (list N).

(** A one-character constant such as ['<'] in the source. *)
Definition chr (a : ascii) : rune := N_of_ascii a.

(** A string constant of the source (ASCII text). *)
Definition lit (s : string) : gostring :=
  map N_of_ascii (String.list_ascii_of_string s).

Arguments chr : simpl never.
Arguments lit : simpl never.

Definition newline : rune := 10%N.

(** The string constant ["\n"] of the source. *)
Definition nl : gostring := [newline].
Definition dquote : rune := 34%N.

(** Equality of strings, Go's [==] on strings. *)
Definition streq (a b : gostring) : bool := bool_decide (a = b).

(** [utf8.RuneLen]: the number of bytes of the UTF-8 encoding of a rune. *)
Definition RuneLen (r : rune) : Z :=
  if (r <? 0x80)%N then 1
  else if (r <? 0x800)%N then 2
  else if (r <? 0x10000)%N then 3
  else 4.

(** The builtin [len] on a string: its length in bytes. *)
Fixpoint len (s : gostring) : Z :=
  match s with
  | [] => 0
  | r :: s' => RuneLen r + len s'
  end.

(** [unicode.IsSpace]: the Latin-1 cases are listed in the function, the
    others are the White_Space table of the Go library. *)
Definition IsSpace (r : rune) : bool :=
  if (r <=? 0xFF)%N then
    (r =? 9)%N || (r =? 10)%N || (r =? 11)%N || (r =? 12)%N || (r =? 13)%N
    || (r =? 32)%N || (r =? 0x85)%N || (r =? 0xA0)%N
  else
    (r =? 0x1680)%N || ((0x2000 <=? r)%N && (r <=? 0x200a)%N)
    || (r =? 0x2028)%N || (r =? 0x2029)%N || (r =? 0x202f)%N
    || (r =? 0x205f)%N || (r =? 0x3000)%N.

Fixpoint TrimLeftSpace (s : gostring) : gostring :=
  match s with
  | [] => []
  | r :: s' => if IsSpace r then TrimLeftSpace s' else s
  end.

Fixpoint TrimRightSpace (s : gostring) : gostring :=
  match s with
  | [] => []
  | r :: s' =>
      match TrimRightSpace s' with
      | [] => if IsSpace r then [] else [r]
      | t => r :: t
      end
  end.

(** [strings.TrimSpace]: the slice of [s] without its leading and trailing
    white space. *)
Definition TrimSpace (s : gostring) : gostring :=
  TrimRightSpace (TrimLeftSpace s).

(** [strings.HasPrefix]. *)
Fixpoint HasPrefix (s prefix : gostring) {struct prefix} : bool :=
  match prefix with
  | [] => true
  | p :: prefix' =>
      match s with
      | [] => false
      | r :: s' => (r =? p)%N && HasPrefix s' prefix'
      end
  end.

(** [strings.Contains]: [substr] occurs somewhere in [s]. *)
Fixpoint Contains (s substr : gostring) : bool :=
  HasPrefix s substr ||
  match s with
  | [] => false
  | _ :: s' => Contains s' substr
  end.

(** [strings.HasSuffix] and [strings.TrimSuffix]. *)
Definition HasSuffix (s suffix : gostring) : bool :=
  HasPrefix (reverse s) (reverse suffix).

Definition TrimSuffix (s suffix : gostring) : gostring :=
  if HasSuffix s suffix then take (length s - length suffix)%nat s else s.

(** [strings.LastIndex]: the byte index of the last occurrence of [substr]
    in [s], or [-1]. *)
Fixpoint LastIndex (s substr : gostring) : Z :=
  match s with
  | [] => if HasPrefix [] substr then 0 else -1
  | r :: s' =>
      let i := LastIndex s' substr in
      if 0 <=? i then RuneLen r + i
      else if HasPrefix s substr then 0 else -1
  end.

(** The slice expression [s[:n]] for a byte index [n] that falls on the
    boundary of a rune, which is the case for every index that
    [LastIndex] returns. *)
Fixpoint sliceTo (s : gostring) (n : Z) : gostring :=
  match s with
  | [] => []
  | r :: s' => if n <? RuneLen r then [] else r :: sliceTo s' (n - RuneLen r)
  end.

(** [strings.Split(s, sep)] for a separator of one rune; the program only
    splits at ["\n"].  The result has one more element than [sep] has
    occurrences. *)
Fixpoint Split (s : gostring) (sep : rune) : list gostring :=
  match s with
  | [] => [[]]
  | r :: s' =>
      if (r =? sep)%N then [] :: Split s' sep
      else match Split s' sep with
           | [] => [[r]]
           | l :: ls => (r :: l) :: ls
           end
  end.

(** [strings.Join]. *)
Fixpoint Join (elems : list gostring) (sep : gostring) : gostring :=
  match elems with
  | [] => []
  | [x] => x
  | x :: rest => x ++ sep ++ Join rest sep
  end.

End GoString.
Import GoString.

(** ** The subtitle normalizer (main.go 452-558, part_000 713-819) *)

(** [isTimestamp] *)
Definition isTimestamp (line : gostring) : bool :=
  Contains line (lit ":") &&
  (Contains line (lit ".") || Contains line (lit ",")) &&
  (len line <? 30).

(** [stripTags]: the loop over the runes of [s], with the builder
    [result] and the flag [inTag]. *)
Fixpoint stripTags_loop (inTag : bool) (result : gostring) (s : gostring)
  : gostring :=
  match s with
  | [] => result
  | r :: s' =>
      if (r =? chr "<")%N then stripTags_loop true result s'
      else if (r =? chr ">")%N then stripTags_loop false result s'
      else if negb inTag then stripTags_loop inTag (result ++ [r]) s'
      else stripTags_loop inTag result s'
  end.

Definition stripTags (s : gostring) : gostring :=
  stripTags_loop false [] s.

(** The state of the line loop: the slice [textLines] and the map [seen]. *)
Record loopState := LoopState {
  textLines : list gostring;
  seen : gmap gostring bool
}.

Definition loopInit : loopState := LoopState [] ∅.

(** [seen[line]]: a missing key reads as [false]. *)
Definition seenAt (m : gmap gostring bool) (line : gostring) : bool :=
  default false (m !! line).

(** The condition of the first [continue] of the loop. *)
Definition skipLine (line : gostring) : bool :=
  streq line (lit "") || streq line (lit "WEBVTT")
  || streq line (lit "Kind: captions")
  || HasPrefix line (lit "Language:")
  || Contains line (lit "-->")
  || HasPrefix line (lit "NOTE")
  || isTimestamp line.

(** The body of the loop of [extractText] (main.go 463-488). *)
Definition extractText_body (st : loopState) (line : gostring) : loopState :=
  let line := TrimSpace line in
  if skipLine line then st
  else
    let line := stripTags line in
    let line := TrimSpace line in
    if streq line (lit "") then st
    else if negb (seenAt (seen st) line)
         then LoopState (textLines st ++ [line]) (<[line := true]> (seen st))
         else st.

(** The body of the loop of [dedupeVTT] (main.go 503-528). *)
Definition dedupeVTT_body (st : loopState) (line : gostring) : loopState :=
  let line := TrimSpace line in
  if streq line (lit "") || streq line (lit "WEBVTT")
     || streq line (lit "Kind: captions")
     || HasPrefix line (lit "Language:")
     || Contains line (lit "-->")
     || HasPrefix line (lit "NOTE")
     || isTimestamp line
  then st
  else
    let line := stripTags line in
    let line := TrimSpace line in
    if streq line (lit "") then st
    else if negb (seenAt (seen st) line)
         then LoopState (textLines st ++ [line]) (<[line := true]> (seen st))
         else st.

(** What [extractText] computes from the content of the file. *)
Definition extractText_of (content : gostring) : gostring :=
  let lines := Split content newline in
  let st := fold_left extractText_body lines loopInit in
  Join (textLines st) nl.

(** What [dedupeVTT] computes from the content of the file and writes. *)
Definition dedupeVTT_of (content : gostring) : gostring :=
  let lines := Split content newline in
  let st := fold_left dedupeVTT_body lines loopInit in
  Join (textLines st) nl.

(** [sanitizeFilename] (main.go 176-190, part_000 234-248).
    [strings.NewReplacer] with old strings of one byte each replaces byte
    by byte; of two pairs with the same old string the first one wins. *)
Definition Replacer := list (rune * gostring).

Fixpoint replacement (oldnew : Replacer) (r : rune) : option gostring :=
  match oldnew with
  | [] => None
  | (o, n) :: rest => if (r =? o)%N then Some n else replacement rest r
  end.

Fixpoint Replace (oldnew : Replacer) (s : gostring) : gostring :=
  match s with
  | [] => []
  | r :: s' =>
      match replacement oldnew r with
      | Some n => n ++ Replace oldnew s'
      | None => r :: Replace oldnew s'
      end
  end.

Definition sanitizeFilename (s : gostring) : gostring :=
  let replacer : Replacer :=
    [ (chr "/", lit "-");
      (chr "\", lit "-");
      (chr ":", lit "-");
      (chr "*", lit "");
      (chr "?", lit "");
      (dquote, lit "");
      (chr "<", lit "");
      (chr ">", lit "");
      (chr "|", lit "") ] in
  Replace replacer s.

(** ** Errors, commands and the operating system *)

(** The values of type [error] that occur: an error of the operating
    system or of an external process, given by its message;
    [fmt.Errorf(msg)]; and [fmt.Errorf(prefix + "%w", cause)]. *)
Inductive error :=
| osError (msg : gostring)
| errorString (msg : gostring)
| wrapError (prefix : gostring) (cause : error).

(** The method [Error()]. *)
Fixpoint Error (e : error) : gostring :=
  match e with
  | osError msg => msg
  | errorString msg => msg
  | wrapError prefix cause => prefix ++ Error cause
  end.

(** [exec.Command(name, arg...)], with the standard input when it is set. *)
Record Cmd := Command {
  Path : gostring;
  Args : list gostring;
  Stdin : option gostring
}.

(** The operations of the environment, on an abstract world. *)
Record OS (World : Type) := {
  os_Run : Cmd -> World -> option error * World;
  os_ReadFile : gostring -> World -> gostring * option error;
  os_WriteFile : gostring -> gostring -> World -> option error * World;
  os_ReadDir : gostring -> World -> list gostring * option error;
  os_Remove : gostring -> World -> World;
  os_MkdirTemp : gostring -> gostring -> World -> (gostring * option error) * World;
  os_RemoveAll : gostring -> World -> World
}.
Arguments os_Run {World}.
Arguments os_ReadFile {World}.
Arguments os_WriteFile {World}.
Arguments os_ReadDir {World}.
Arguments os_Remove {World}.
Arguments os_MkdirTemp {World}.
Arguments os_RemoveAll {World}.

(** What the program did to its environment, in order. *)
Inductive Event :=
| EvRun (c : Cmd)
| EvReadDir (dir : gostring)
| EvWriteFile (name data : gostring)
| EvRemove (name : gostring)
| EvRemoveAll (name : gostring).

Record State (World : Type) := MkState {
  world : World;
  trace : list Event
}.
Arguments MkState {World}.
Arguments world {World}.
Arguments trace {World}.

(** The two package variables, set by [main] before a download starts. *)
Record Config := MkConfig {
  outputDir : gostring;
  customOutPath : gostring
}.

(** A state monad over the world and the trace. *)
Definition M (World A : Type) : Type := State World -> A * State World.

Definition ret {World A} (a : A) : M World A := fun s => (a, s).

Definition bind {World A B} (m : M World A) (k : A -> M World B) : M World B :=
  fun s => let (a, s') := m s in k a s'.

#[global] Instance M_ret {World} : MRet (M World) := @ret World.
#[global] Instance M_bind {World} : MBind (M World) :=
  fun A B k m => bind m k.

Section Effects.
Context {World : Type} (os : OS World).

Definition emit (e : Event) (s : State World) (w : World) : State World :=
  MkState w (trace s ++ [e]).

(** [cmd.Run()] *)
Definition Run (c : Cmd) : M World (option error) :=
  fun s => let (r, w) := os_Run os c (world s) in (r, emit (EvRun c) s w).

Definition ReadFile (name : gostring) : M World (gostring * option error) :=
  fun s => (os_ReadFile os name (world s), s).

Definition WriteFile (name data : gostring) : M World (option error) :=
  fun s => let (r, w) := os_WriteFile os name data (world s) in
           (r, emit (EvWriteFile name data) s w).

Definition ReadDir (dir : gostring) : M World (list gostring * option error) :=
  fun s => (os_ReadDir os dir (world s), emit (EvReadDir dir) s (world s)).

Definition Remove (name : gostring) : M World unit :=
  fun s => (tt, emit (EvRemove name) s (os_Remove os name (world s))).

Definition MkdirTemp (dir pattern : gostring) : M World (gostring * option error) :=
  fun s => let (r, w) := os_MkdirTemp os dir pattern (world s) in
           (r, MkState w (trace s)).

Definition RemoveAll (name : gostring) : M World unit :=
  fun s => (tt, emit (EvRemoveAll name) s (os_RemoveAll os name (world s))).

(** [extractText] (main.go 453-491, part_000 714-752). *)
Definition extractText (vttPath : gostring) : M World (gostring * option error) :=
  r ← ReadFile vttPath;
  match r with
  | (_, Some err) => mret (lit "", Some err)
  | (content, None) => mret (extractText_of content, None)
  end.

(** [dedupeVTT] (main.go 493-532, part_000 754-793). *)
Definition dedupeVTT (vttPath txtPath : gostring) : M World (option error) :=
  r ← ReadFile vttPath;
  match r with
  | (_, Some err) => mret (Some err)
  | (content, None) => WriteFile txtPath (dedupeVTT_of content)
  end.

End Effects.

(** The external commands of a trace, in the order in which they ran. *)
Definition execs (t : list Event) : list Cmd :=
  omap (λ e, match e with EvRun c => Some c | _ => None end) t.

(** Running actions one after the other up to the first error, which is
    returned as it is: the reference behaviour for a run of steps. *)
Fixpoint runInOrder {World : Type} (actions : list (M World (option error)))
  : M World (option error) :=
  match actions with
  | [] => mret None
  | a :: rest =>
      e ← a;
      match e with
      | Some e => mret (Some e)
      | None => runInOrder rest
      end
  end.

(** An action whose error, if any, is wrapped with the name of its stage. *)
Definition wrapStage {World : Type} (prefix : gostring)
    (a : M World (option error)) : M World (option error) :=
  e ← a; mret (wrapError prefix <$> e).

(** The action [a] runs the external command [c] and no other. *)
Definition runsOnly {World : Type} (a : M World (option error)) (c : Cmd)
  : Prop :=
  ∀ s, execs (trace (a s).2) = execs (trace s) ++ [c].

(** The error message names a stage when the name occurs in it. *)
Definition namesStage (e : error) (stage : gostring) : bool :=
  Contains (Error e) stage.

(** ** The multi-select variant (src/unnamed/part_000) *)

Module Multi.

Record DownloadOptions := MkOptions {
  Video : bool;
  Audio : bool;
  Subs : bool;
  Summary : bool;
  Prompt : gostring
}.

Definition defaultPrompt : gostring :=
  lit "Summarize this transcript of a YouTube video. Provide a concise summary of the main points and key takeaways.".

(** The selection of the interactive menu: the slice [checked] of the
    model and the key [" "] or ["x"] of [model.Update] (part_000 204-210),
    which toggles the entry under the cursor. *)
Definition toggle (claudeAvailable : bool) (checked : list bool) (cursor : Z)
  : list bool :=
  if (cursor =? 3) && negb claudeAvailable then checked
  else match checked !! Z.to_nat cursor with
       | Some b => <[Z.to_nat cursor := negb b]> checked
       | None => checked
       end.

(** [model.getOptions] (part_000 113-121). *)
Definition getOptions (checked : list bool) (prompt : gostring)
  : DownloadOptions :=
  {| Video := default false (checked !! 0%nat);
     Audio := default false (checked !! 1%nat);
     Subs := default false (checked !! 2%nat);
     Summary := default false (checked !! 3%nat);
     Prompt := prompt |}.

(** [make([]bool, 4)] in [initialModel]. *)
Definition initialChecked : list bool := [false; false; false; false].

(** The fields of [downloadModel] that the orchestration uses; [spinner]
    and [status] only feed the display. *)
Record downloadModel := MkDownloadModel {
  done : bool;
  err : option error;
  url : gostring;
  opts : DownloadOptions;
  steps : list gostring;
  step : Z
}.

(** [initialDownloadModel] (part_000 427-454). *)
Definition initialDownloadModel (url : gostring) (opts : DownloadOptions)
  : downloadModel :=
  let steps : list gostring := [] in
  let steps := if Video opts then steps ++ [lit "video"] else steps in
  let steps := if Audio opts then steps ++ [lit "audio"] else steps in
  let steps := if Subs opts then steps ++ [lit "subs"] else steps in
  {| done := false; err := None; url := url; opts := opts;
     steps := steps; step := 0 |}.

(** The messages of the download program and the commands that [Update]
    returns. *)
Inductive Msg :=
| KeyMsg (key : gostring)
| startDownloadMsg
| downloadDoneMsg (err : option error)
| TickMsg
| otherMsg.

Inductive TeaCmd :=
| cmdNil
| cmdQuit
| cmdRunCurrentStep (m : downloadModel)
| cmdSpinner.

(** [downloadModel.Update] (part_000 509-543). *)
Definition Update (m : downloadModel) (msg : Msg) : downloadModel * TeaCmd :=
  match msg with
  | KeyMsg key =>
      if streq key (lit "ctrl+c") then (m, cmdQuit) else (m, cmdNil)
  | startDownloadMsg => (m, cmdRunCurrentStep m)
  | downloadDoneMsg (Some e) =>
      let m := MkDownloadModel true (Some e) (url m) (opts m) (steps m) (step m) in
      (m, cmdQuit)
  | downloadDoneMsg None =>
      let m := MkDownloadModel (done m) (err m) (url m) (opts m) (steps m) (step m + 1) in
      if step m <? Z.of_nat (length (steps m)) then (m, cmdRunCurrentStep m)
      else
        let m := MkDownloadModel true (err m) (url m) (opts m) (steps m) (step m) in
        (m, cmdQuit)
  | TickMsg => (m, cmdSpinner)
  | otherMsg => (m, cmdNil)
  end.

(** What reaches the download program from outside while it runs: a key,
    a tick of the spinner, another message of the runtime (the size of the
    window and the like), or a failure of the runtime itself, such as a
    missing terminal or a signal that kills the program, with which
    [p.Run()] returns an error. *)
Inductive External :=
| extKey (key : gostring)
| extTick
| extOther
| extFail (e : error).

(** The external events of a run: those of turn [0] arrive before the
    [startDownloadMsg] of [Init], those of turn [k+1] while the [k]-th
    command of a step runs, before its [downloadDoneMsg]. *)
Abbreviation Schedule := (nat → list External).

(** The schedule of a run that nothing disturbs. *)
Definition noEvents : Schedule := λ _, [].

(** A schedule without interruption: the runtime does not fail and the
    user does not press ctrl+c. *)
Definition uninterrupted (sched : Schedule) : Prop :=
  ∀ turn,
    Forall (λ ev, match ev with
                  | extFail _ => False
                  | extKey key => key ≠ lit "ctrl+c"
                  | _ => True
                  end) (sched turn).

(** Modelled from the Bubble Tea runtime, which is not part of the
    repository: the external events are handed to [Update] one by one.
    The result is [inr] with the result of [p.Run()] when the runtime
    fails or [Update] returns [tea.Quit], and [inl] with the model
    otherwise.  For these messages [Update] returns no command of a step
    ([Update_key], [Update_tick]). *)
Fixpoint deliver (m : downloadModel) (evs : list External)
  : downloadModel + (downloadModel * option error) :=
  match evs with
  | [] => inl m
  | extFail e :: _ => inr (m, Some e)
  | ev :: rest =>
      let msg := match ev with
                 | extKey key => KeyMsg key
                 | extTick => TickMsg
                 | _ => otherMsg
                 end in
      let (m', c) := Update m msg in
      match c with
      | cmdQuit => inr (m', None)
      | _ => deliver m' rest
      end
  end.

Section Program.
Context {World : Type} (os : OS World) (cfg : Config).

(** [getOutputPattern] (part_000 566-575). *)
Definition getOutputPattern (ext : gostring) : gostring :=
  if negb (streq (customOutPath cfg) (lit "")) then customOutPath cfg ++ ext
  else
    let dir := lit "." in
    let dir := if negb (streq (outputDir cfg) (lit "")) then outputDir cfg else dir in
    dir ++ lit "/%(title)s" ++ ext.

(** The command lines of [doDownloadVideo], [doDownloadAudio] and
    [doDownloadSubs] (part_000 577-612). *)
Definition videoCmd (url : gostring) : Cmd :=
  let args := [lit "-f"; lit "bestvideo[ext=mp4]+bestaudio[ext=m4a]/best[ext=mp4]/best";
               lit "--merge-output-format"; lit "mp4";
               lit "-q"; lit "--no-warnings"] in
  let args := args ++ [lit "-o"; getOutputPattern (lit ".%(ext)s")] in
  let args := args ++ [url] in
  Command (lit "yt-dlp") args None.

Definition audioCmd (url : gostring) : Cmd :=
  let args := [lit "-x"; lit "--audio-format"; lit "mp3";
               lit "--audio-quality"; lit "0";
               lit "-q"; lit "--no-warnings"] in
  let args := args ++ [lit "-o"; getOutputPattern (lit ".%(ext)s")] in
  let args := args ++ [url] in
  Command (lit "yt-dlp") args None.

Definition subsCmd (url : gostring) : Cmd :=
  Command (lit "yt-dlp")
    [lit "--write-subs"; lit "--write-auto-subs"; lit "--sub-lang"; lit "en";
     lit "--sub-format"; lit "vtt"; lit "--skip-download";
     lit "-q"; lit "--no-warnings";
     lit "-o"; getOutputPattern (lit ".%(ext)s"); url] None.

Definition doDownloadVideo (url : gostring) : M World (option error) :=
  Run os (videoCmd url).

Definition doDownloadAudio (url : gostring) : M World (option error) :=
  Run os (audioCmd url).

(** The loop of [processSubtitles] over the directory entries. *)
Fixpoint processEntries (dir : gostring) (entries : list gostring)
  : M World unit :=
  match entries with
  | [] => mret tt
  | name :: rest =>
      if HasSuffix name (lit ".vtt") then
        let vttPath := dir ++ lit "/" ++ name in
        let txtPath := dir ++ lit "/" ++ TrimSuffix name (lit ".vtt") ++ lit ".txt" in
        e ← dedupeVTT os vttPath txtPath;
        match e with
        | Some _ => processEntries dir rest
        | None => Remove os vttPath;; processEntries dir rest
        end
      else processEntries dir rest
  end.

(** [processSubtitles] (part_000 632-651). *)
Definition processSubtitles (dir : gostring) : M World (option error) :=
  r ← ReadDir os dir;
  match r with
  | (_, Some e) => mret (Some e)
  | (entries, None) => processEntries dir entries;; mret None
  end.

(** The directory in which [doDownloadSubs] looks for the caption files
    (part_000 617-628). *)
Definition searchDir : gostring :=
  let searchDir := lit "." in
  let searchDir :=
    if negb (streq (outputDir cfg) (lit "")) then outputDir cfg else searchDir in
  if negb (streq (customOutPath cfg) (lit "")) then
    let lastSlash := LastIndex (customOutPath cfg) (lit "/") in
    if 0 <? lastSlash then sliceTo (customOutPath cfg) lastSlash else searchDir
  else searchDir.

(** [doDownloadSubs] (part_000 602-630). *)
Definition doDownloadSubs (url : gostring) : M World (option error) :=
  e ← Run os (subsCmd url);
  match e with
  | Some e => mret (Some e)
  | None => processSubtitles searchDir
  end.

(** [downloadModel.runCurrentStep] (part_000 490-507): the command, run by
    the Bubble Tea runtime, whose result is the next message. *)
Definition runCurrentStep (m : downloadModel) : M World Msg :=
  if Z.of_nat (length (steps m)) <=? step m then mret (downloadDoneMsg None)
  else
    match steps m !! Z.to_nat (step m) with
    | Some name =>
        if streq name (lit "video") then
          e ← doDownloadVideo (url m); mret (downloadDoneMsg e)
        else if streq name (lit "audio") then
          e ← doDownloadAudio (url m); mret (downloadDoneMsg e)
        else if streq name (lit "subs") then
          e ← doDownloadSubs (url m); mret (downloadDoneMsg e)
        else mret (downloadDoneMsg None)
    | None => mret (downloadDoneMsg None)
    end.

(** Modelled from the Bubble Tea runtime, which is not part of the
    repository: the message loop of [p.Run()].  A command starts as soon
    as [Update] has returned it; [pending] is the command in flight.  In
    each turn the command runs, the external events of the turn are
    handed to [Update], then the message of the command is.  The loop
    ends with the model of the update that returns [tea.Quit] and no
    error, or, when the runtime fails, with the model of that moment and
    the error; the message of a command that is then in flight is never
    handed to [Update].  An interruption falls between two commands: what
    a command leaves behind that is cut short is not modelled.  The
    result is [None] when the fuel runs out or no message is pending. *)
Fixpoint teaLoop (fuel : nat) (sched : Schedule) (turn : nat)
    (m : downloadModel) (pending : M World Msg)
  : M World (option (downloadModel * option error)) :=
  match fuel with
  | O => mret None
  | S fuel' =>
      msg ← pending;
      match deliver m (sched turn) with
      | inr r => mret (Some r)
      | inl m =>
          let (m', c) := Update m msg in
          match c with
          | cmdRunCurrentStep mc =>
              teaLoop fuel' sched (S turn) m' (runCurrentStep mc)
          | cmdQuit => mret (Some (m', None))
          | cmdNil | cmdSpinner => mret None
          end
      end
  end.

(** [runWithSpinner] (part_000 552-561); the first command in flight is
    the one of [Init] that gives [startDownloadMsg].  The outer [option]
    is [None] only if the message loop gave no result, which
    [runWithSpinner_steps] excludes. *)
Definition runWithSpinner (sched : Schedule) (url : gostring)
    (opts : DownloadOptions) : M World (option (option error)) :=
  let m0 := initialDownloadModel url opts in
  r ← teaLoop (S (S (length (steps m0)))) sched 0 m0 (mret startDownloadMsg);
  mret (match r with
        | None => None
        | Some (_, Some e) => Some (Some e)
        | Some (dm, None) => Some (err dm)
        end).

(** The action of a step, as the switch of [runCurrentStep] selects it. *)
Definition stepAction (url name : gostring) : M World (option error) :=
  if streq name (lit "video") then doDownloadVideo url
  else if streq name (lit "audio") then doDownloadAudio url
  else if streq name (lit "subs") then doDownloadSubs url
  else mret None.

(** The fetch commands of a request, in the order video, audio,
    subtitles, without those that were not requested. *)
Definition plannedCmds (url : gostring) (opts : DownloadOptions) : list Cmd :=
  (if Video opts then [videoCmd url] else [])
  ++ (if Audio opts then [audioCmd url] else [])
  ++ (if Subs opts then [subsCmd url] else []).

(** The search for the first caption file in [downloadSummary]. *)
Fixpoint firstVtt (tmpDir : gostring) (entries : list gostring) : gostring :=
  match entries with
  | [] => lit ""
  | name :: rest =>
      if HasSuffix name (lit ".vtt") then tmpDir ++ lit "/" ++ name
      else firstVtt tmpDir rest
  end.

(** [downloadSummary] (part_000 653-711); the deferred [os.RemoveAll]
    runs on every return after the directory was created. *)
Definition downloadSummary (url prompt : gostring) : M World (option error) :=
  t ← MkdirTemp os (lit "") (lit "tuber-summary-");
  match t with
  | (_, Some e) => mret (Some (wrapError (lit "failed to create temp dir: ") e))
  | (tmpDir, None) =>
      r ← (e ← Run os (Command (lit "yt-dlp")
                  [lit "--write-subs"; lit "--write-auto-subs";
                   lit "--sub-lang"; lit "en"; lit "--sub-format"; lit "vtt";
                   lit "--skip-download";
                   lit "-o"; tmpDir ++ lit "/%(title)s.%(ext)s"; url] None);
           match e with
           | Some e => mret (Some (wrapError (lit "failed to download subtitles: ") e))
           | None =>
               d ← ReadDir os tmpDir;
               match d with
               | (_, Some e) => mret (Some e)
               | (entries, None) =>
                   let vttPath := firstVtt tmpDir entries in
                   if streq vttPath (lit "") then
                     mret (Some (errorString (lit "no subtitles found for this video")))
                   else
                     x ← extractText os vttPath;
                     match x with
                     | (_, Some e) =>
                         mret (Some (wrapError (lit "failed to extract text: ") e))
                     | (transcript, None) =>
                         Run os (Command (lit "claude") [lit "-p"; prompt]
                                   (Some transcript))
                     end
               end
           end);
      RemoveAll os tmpDir;; mret r
  end.

(** [runDownload] (part_000 393-411).  The outer [option] is [None] only
    if the message loop gave no result, which [runWithSpinner_steps]
    excludes. *)
Definition runDownload (sched : Schedule) (url : gostring)
    (opts : DownloadOptions) : M World (option (option error)) :=
  r ← (if Video opts || Audio opts || Subs opts
       then runWithSpinner sched url opts else mret (Some None));
  match r with
  | None => mret None
  | Some (Some e) => mret (Some (Some e))
  | Some None =>
      if Summary opts then
        let prompt := Prompt opts in
        let prompt := if streq prompt (lit "") then defaultPrompt else prompt in
        e ← downloadSummary url prompt; mret (Some e)
      else mret (Some None)
  end.

End Program.
End Multi.

(** ** The single-select variant (src/main.go) *)

Module Single.

Inductive Mode := ModeVideo | ModeAudio | ModeSubs | ModeAll | ModeSummary.

Section Program.
Context {World : Type} (os : OS World) (cfg : Config).

(** [getOutputPattern] (main.go 317-326). *)
Definition getOutputPattern (ext : gostring) : gostring :=
  if negb (streq (customOutPath cfg) (lit "")) then customOutPath cfg ++ ext
  else
    let dir := lit "." in
    let dir := if negb (streq (outputDir cfg) (lit "")) then outputDir cfg else dir in
    dir ++ lit "/%(title)s" ++ ext.

Definition videoCmd (url : gostring) : Cmd :=
  let args := [lit "-f"; lit "bestvideo[ext=mp4]+bestaudio[ext=m4a]/best[ext=mp4]/best";
               lit "--merge-output-format"; lit "mp4"] in
  let args := args ++ [lit "-o"; getOutputPattern (lit ".%(ext)s")] in
  let args := args ++ [url] in
  Command (lit "yt-dlp") args None.

Definition audioCmd (url : gostring) : Cmd :=
  let args := [lit "-x"; lit "--audio-format"; lit "mp3";
               lit "--audio-quality"; lit "0"] in
  let args := args ++ [lit "-o"; getOutputPattern (lit ".%(ext)s")] in
  let args := args ++ [url] in
  Command (lit "yt-dlp") args None.

Definition subsCmd (url : gostring) : Cmd :=
  Command (lit "yt-dlp")
    [lit "--write-subs"; lit "--write-auto-subs"; lit "--sub-lang"; lit "en";
     lit "--sub-format"; lit "vtt"; lit "--skip-download";
     lit "-o"; getOutputPattern (lit ".%(ext)s"); url] None.

(** [downloadVideo] (main.go 303-315) and [downloadAudio] (328-341). *)
Definition downloadVideo (url : gostring) : M World (option error) :=
  Run os (videoCmd url).

Definition downloadAudio (url : gostring) : M World (option error) :=
  Run os (audioCmd url).

(** The loop of [processSubtitles]; the messages it prints are left out. *)
Fixpoint processEntries (dir : gostring) (entries : list gostring)
  : M World unit :=
  match entries with
  | [] => mret tt
  | name :: rest =>
      if HasSuffix name (lit ".vtt") then
        let vttPath := dir ++ lit "/" ++ name in
        let txtPath := dir ++ lit "/" ++ TrimSuffix name (lit ".vtt") ++ lit ".txt" in
        e ← dedupeVTT os vttPath txtPath;
        match e with
        | Some _ => processEntries dir rest
        | None => Remove os vttPath;; processEntries dir rest
        end
      else processEntries dir rest
  end.

(** [processSubtitles] (main.go 369-390). *)
Definition processSubtitles (dir : gostring) : M World (option error) :=
  r ← ReadDir os dir;
  match r with
  | (_, Some e) => mret (Some e)
  | (entries, None) => processEntries dir entries;; mret None
  end.

(** The directory in which [downloadSubs] looks for the caption files
    (main.go 361-365). *)
Definition searchDir : gostring :=
  let searchDir := lit "." in
  if negb (streq (outputDir cfg) (lit "")) then outputDir cfg else searchDir.

(** [downloadSubs] (main.go 343-367). *)
Definition downloadSubs (url : gostring) : M World (option error) :=
  e ← Run os (subsCmd url);
  match e with
  | Some e => mret (Some e)
  | None => processSubtitles searchDir
  end.

Fixpoint firstVtt (tmpDir : gostring) (entries : list gostring) : gostring :=
  match entries with
  | [] => lit ""
  | name :: rest =>
      if HasSuffix name (lit ".vtt") then tmpDir ++ lit "/" ++ name
      else firstVtt tmpDir rest
  end.

(** [downloadSummary] (main.go 392-450). *)
Definition downloadSummary (url : gostring) : M World (option error) :=
  t ← MkdirTemp os (lit "") (lit "ytd-summary-");
  match t with
  | (_, Some e) => mret (Some (wrapError (lit "failed to create temp dir: ") e))
  | (tmpDir, None) =>
      r ← (e ← Run os (Command (lit "yt-dlp")
                  [lit "--write-subs"; lit "--write-auto-subs";
                   lit "--sub-lang"; lit "en"; lit "--sub-format"; lit "vtt";
                   lit "--skip-download";
                   lit "-o"; tmpDir ++ lit "/%(title)s.%(ext)s"; url] None);
           match e with
           | Some e => mret (Some (wrapError (lit "failed to download subtitles: ") e))
           | None =>
               d ← ReadDir os tmpDir;
               match d with
               | (_, Some e) => mret (Some e)
               | (entries, None) =>
                   let vttPath := firstVtt tmpDir entries in
                   if streq vttPath (lit "") then
                     mret (Some (errorString (lit "no subtitles found for this video")))
                   else
                     x ← extractText os vttPath;
                     match x with
                     | (_, Some e) =>
                         mret (Some (wrapError (lit "failed to extract text: ") e))
                     | (transcript, None) =>
                         Run os (Command (lit "claude")
                                   [lit "-p"; lit "Summarize this transcript of a YouTube video. Provide a concise summary of the main points and key takeaways."]
                                   (Some transcript))
                     end
               end
           end);
      RemoveAll os tmpDir;; mret r
  end.

(** [runDownload] (main.go 275-298). *)
Definition runDownload (url : gostring) (mode : Mode) : M World (option error) :=
  match mode with
  | ModeVideo => downloadVideo url
  | ModeAudio => downloadAudio url
  | ModeSubs => downloadSubs url
  | ModeAll =>
      e ← downloadVideo url;
      match e with
      | Some e => mret (Some (wrapError (lit "video download failed: ") e))
      | None =>
          e ← downloadAudio url;
          match e with
          | Some e => mret (Some (wrapError (lit "audio download failed: ") e))
          | None =>
              e ← downloadSubs url;
              match e with
              | Some e => mret (Some (wrapError (lit "subtitle download failed: ") e))
              | None => mret None
              end
          end
      end
  | ModeSummary => downloadSummary url
  end.

End Program.
End Single.

(** ** The interactive selector *)

(** [tea.KeyType], as far as the two [Update] functions tell the types
    apart. *)
Inductive KeyType :=
| KeyCtrlC | KeyEnter | KeyBackspace | KeyEscape | KeyRunes | KeyOther.

(** A [tea.KeyMsg]: its type, its runes, and the text that its method
    [String()] returns.  The library computes that text from the other
    fields; here it is a field of its own, so that what is proved for all
    keys holds for the keys of the library. *)
Record Key := MkKey {
  keyType : KeyType;
  keyRunes : gostring;
  keyString : gostring
}.

(** [uiState] (main.go 30-36, part_000 45-51). *)
Inductive uiState := stateURLInput | stateLoading | stateMenu.

(** The slice expression [s[:len(s)-1]]: [s] without its last byte.  In
    this model of strings the result exists when the last character of
    [s] is a single byte; otherwise the Go string ends inside a character
    and the result is [None]. *)
Definition dropLastByte (s : gostring) : option gostring :=
  match reverse s with
  | r :: rest => if RuneLen r =? 1 then Some (reverse rest) else None
  | [] => None
  end.

(** The messages of the selector and the commands that its [Update]
    returns. *)
Inductive SelMsg :=
| titleMsg (t : gostring)
| errMsg (e : error)
| KeyMsg (k : Key)
| otherSelMsg.

Inductive SelCmd :=
| selNil
| selQuit
| selFetchTitle (url : gostring).

(** The message that the command of [fetchTitle] produces from the result
    of [cmd.Output()] (main.go 57-66, part_000 74-83). *)
Definition fetchTitleMsg (out : gostring) (err : option error) : SelMsg :=
  match err with
  | Some e => errMsg e
  | None => titleMsg (TrimSpace out)
  end.

(** The selector of the multi-select variant (part_000 54-232). *)
Module MultiUI.

Record model := MkModel {
  url : gostring;
  choices : list gostring;
  cursor : Z;
  checked : list bool;
  done : bool;
  quitting : bool;
  title : gostring;
  outPath : gostring;
  editing : bool;
  editBuf : gostring;
  state : uiState;
  editingField : gostring;
  prompt : gostring
}.

Definition with_url (v : gostring) (m : model) : model :=
  MkModel v (choices m) (cursor m) (checked m) (done m) (quitting m) (title m) (outPath m) (editing m) (editBuf m) (state m) (editingField m) (prompt m).

Definition with_choices (v : list gostring) (m : model) : model :=
  MkModel (url m) v (cursor m) (checked m) (done m) (quitting m) (title m) (outPath m) (editing m) (editBuf m) (state m) (editingField m) (prompt m).

Definition with_cursor (v : Z) (m : model) : model :=
  MkModel (url m) (choices m) v (checked m) (done m) (quitting m) (title m) (outPath m) (editing m) (editBuf m) (state m) (editingField m) (prompt m).

Definition with_checked (v : list bool) (m : model) : model :=
  MkModel (url m) (choices m) (cursor m) v (done m) (quitting m) (title m) (outPath m) (editing m) (editBuf m) (state m) (editingField m) (prompt m).

Definition with_done (v : bool) (m : model) : model :=
  MkModel (url m) (choices m) (cursor m) (checked m) v (quitting m) (title m) (outPath m) (editing m) (editBuf m) (state m) (editingField m) (prompt m).

Definition with_quitting (v : bool) (m : model) : model :=
  MkModel (url m) (choices m) (cursor m) (checked m) (done m) v (title m) (outPath m) (editing m) (editBuf m) (state m) (editingField m) (prompt m).

Definition with_title (v : gostring) (m : model) : model :=
  MkModel (url m) (choices m) (cursor m) (checked m) (done m) (quitting m) v (outPath m) (editing m) (editBuf m) (state m) (editingField m) (prompt m).

Definition with_outPath (v : gostring) (m : model) : model :=
  MkModel (url m) (choices m) (cursor m) (checked m) (done m) (quitting m) (title m) v (editing m) (editBuf m) (state m) (editingField m) (prompt m).

Definition with_editing (v : bool) (m : model) : model :=
  MkModel (url m) (choices m) (cursor m) (checked m) (done m) (quitting m) (title m) (outPath m) v (editBuf m) (state m) (editingField m) (prompt m).

Definition with_editBuf (v : gostring) (m : model) : model :=
  MkModel (url m) (choices m) (cursor m) (checked m) (done m) (quitting m) (title m) (outPath m) (editing m) v (state m) (editingField m) (prompt m).

Definition with_state (v : uiState) (m : model) : model :=
  MkModel (url m) (choices m) (cursor m) (checked m) (done m) (quitting m) (title m) (outPath m) (editing m) (editBuf m) v (editingField m) (prompt m).

Definition with_editingField (v : gostring) (m : model) : model :=
  MkModel (url m) (choices m) (cursor m) (checked m) (done m) (quitting m) (title m) (outPath m) (editing m) (editBuf m) (state m) v (prompt m).

Definition with_prompt (v : gostring) (m : model) : model :=
  MkModel (url m) (choices m) (cursor m) (checked m) (done m) (quitting m) (title m) (outPath m) (editing m) (editBuf m) (state m) (editingField m) v.

Section Selector.
Context (claudeAvailable : bool) (cfg : Config).

(** [initialModel] (part_000 85-109). *)
Definition initialModel (url : gostring) : model :=
  let state := stateURLInput in
  let state := if negb (streq url (lit "")) then stateLoading else state in
  let dir := lit "." in
  let dir := if negb (streq (outputDir cfg) (lit "")) then outputDir cfg else dir in
  let summaryLabel := lit "Summary" in
  let summaryLabel :=
    if negb claudeAvailable then lit "Summary (install claude cli)"
    else summaryLabel in
  {| url := url;
     choices := [lit "Video"; lit "Audio"; lit "Subtitles"; summaryLabel];
     cursor := 0;
     checked := Multi.initialChecked;
     done := false;
     quitting := false;
     title := lit "";
     outPath := dir ++ lit "/video";
     editing := false;
     editBuf := lit "";
     state := state;
     editingField := lit "";
     prompt := Multi.defaultPrompt |}.

(** [model.getOptions] (part_000 113-121). *)
Definition getOptions (m : model) : Multi.DownloadOptions :=
  Multi.getOptions (checked m) (prompt m).

(** [model.Init] (part_000 123-128). *)
Definition Init (m : model) : SelCmd :=
  if negb (streq (url m) (lit "")) then selFetchTitle (url m) else selNil.

(** [model.Update] (part_000 130-232).  The result is [None] only when a
    backspace would cut a string inside a character. *)
Definition Update (m : model) (msg : SelMsg) : option (model * SelCmd) :=
  match msg with
  | titleMsg t =>
      let m := with_title t m in
      let dir := lit "." in
      let dir :=
        if negb (streq (outputDir cfg) (lit "")) then outputDir cfg else dir in
      let m := with_outPath (dir ++ lit "/" ++ sanitizeFilename (title m)) m in
      let m := with_state stateMenu m in
      Some (m, selNil)
  | errMsg _ =>
      let m := with_state stateMenu m in
      Some (m, selNil)
  | KeyMsg k =>
      match state m with
      | stateURLInput =>
          match keyType k with
          | KeyCtrlC => Some (with_quitting true m, selQuit)
          | KeyEnter =>
              if negb (streq (url m) (lit "")) then
                let m := with_state stateLoading m in
                Some (m, selFetchTitle (url m))
              else Some (m, selNil)
          | KeyBackspace =>
              if 0 <? len (url m) then
                u ← dropLastByte (url m); Some (with_url u m, selNil)
              else Some (m, selNil)
          | KeyRunes => Some (with_url (url m ++ keyRunes k) m, selNil)
          | _ => Some (m, selNil)
          end
      | _ =>
          if editing m then
            match keyType k with
            | KeyEnter =>
                let m :=
                  if streq (editingField m) (lit "path")
                  then with_outPath (editBuf m) m
                  else if streq (editingField m) (lit "prompt")
                       then with_prompt (editBuf m) m
                       else m in
                Some (with_editing false m, selNil)
            | KeyEscape => Some (with_editing false m, selNil)
            | KeyBackspace =>
                if 0 <? len (editBuf m) then
                  b ← dropLastByte (editBuf m); Some (with_editBuf b m, selNil)
                else Some (m, selNil)
            | KeyRunes => Some (with_editBuf (editBuf m ++ keyRunes k) m, selNil)
            | _ => Some (m, selNil)
            end
          else
            let key := keyString k in
            if streq key (lit "ctrl+c") || streq key (lit "q") then
              Some (with_quitting true m, selQuit)
            else if streq key (lit "up") || streq key (lit "k") then
              let m := if 0 <? cursor m then with_cursor (cursor m - 1) m else m in
              Some (m, selNil)
            else if streq key (lit "down") || streq key (lit "j") then
              let m :=
                if cursor m <? Z.of_nat (length (choices m)) - 1
                then with_cursor (cursor m + 1) m else m in
              Some (m, selNil)
            else if streq key (lit " ") || streq key (lit "x") then
              Some (with_checked (Multi.toggle claudeAvailable (checked m) (cursor m)) m,
                    selNil)
            else if streq key (lit "enter") then
              let opts := getOptions m in
              if Multi.Video opts || Multi.Audio opts || Multi.Subs opts
                 || Multi.Summary opts
              then Some (with_done true m, selQuit)
              else Some (m, selNil)
            else if streq key (lit "e") then
              let m := with_editing true m in
              let m := with_editingField (lit "path") m in
              let m := with_editBuf (outPath m) m in
              Some (m, selNil)
            else if streq key (lit "p") then
              if claudeAvailable then
                let m := with_editing true m in
                let m := with_editingField (lit "prompt") m in
                let m := with_editBuf (prompt m) m in
                Some (m, selNil)
              else Some (m, selNil)
            else Some (m, selNil)
      end
  | otherSelMsg => Some (m, selNil)
  end.

(** The models that the selector can be in: the initial one and those
    that [Update] gives for any message whatever. *)
Inductive reachable (url0 : gostring) : model → Prop :=
| reach_init : reachable url0 (initialModel url0)
| reach_step m msg m' c :
    reachable url0 m → Update m msg = Some (m', c) → reachable url0 m'.

End Selector.
End MultiUI.

(** The selector of the single-select variant (main.go 39-174).  The
    field [selected] holds the integer behind the [Mode]. *)
Module SingleUI.

Record model := MkModel {
  url : gostring;
  choices : list gostring;
  cursor : Z;
  selected : Z;
  done : bool;
  quitting : bool;
  title : gostring;
  outPath : gostring;
  editing : bool;
  editBuf : gostring;
  state : uiState
}.

Definition with_url (v : gostring) (m : model) : model :=
  MkModel v (choices m) (cursor m) (selected m) (done m) (quitting m) (title m) (outPath m) (editing m) (editBuf m) (state m).

Definition with_choices (v : list gostring) (m : model) : model :=
  MkModel (url m) v (cursor m) (selected m) (done m) (quitting m) (title m) (outPath m) (editing m) (editBuf m) (state m).

Definition with_cursor (v : Z) (m : model) : model :=
  MkModel (url m) (choices m) v (selected m) (done m) (quitting m) (title m) (outPath m) (editing m) (editBuf m) (state m).

Definition with_selected (v : Z) (m : model) : model :=
  MkModel (url m) (choices m) (cursor m) v (done m) (quitting m) (title m) (outPath m) (editing m) (editBuf m) (state m).

Definition with_done (v : bool) (m : model) : model :=
  MkModel (url m) (choices m) (cursor m) (selected m) v (quitting m) (title m) (outPath m) (editing m) (editBuf m) (state m).

Definition with_quitting (v : bool) (m : model) : model :=
  MkModel (url m) (choices m) (cursor m) (selected m) (done m) v (title m) (outPath m) (editing m) (editBuf m) (state m).

Definition with_title (v : gostring) (m : model) : model :=
  MkModel (url m) (choices m) (cursor m) (selected m) (done m) (quitting m) v (outPath m) (editing m) (editBuf m) (state m).

Definition with_outPath (v : gostring) (m : model) : model :=
  MkModel (url m) (choices m) (cursor m) (selected m) (done m) (quitting m) (title m) v (editing m) (editBuf m) (state m).

Definition with_editing (v : bool) (m : model) : model :=
  MkModel (url m) (choices m) (cursor m) (selected m) (done m) (quitting m) (title m) (outPath m) v (editBuf m) (state m).

Definition with_editBuf (v : gostring) (m : model) : model :=
  MkModel (url m) (choices m) (cursor m) (selected m) (done m) (quitting m) (title m) (outPath m) (editing m) v (state m).

Definition with_state (v : uiState) (m : model) : model :=
  MkModel (url m) (choices m) (cursor m) (selected m) (done m) (quitting m) (title m) (outPath m) (editing m) (editBuf m) v.

(** The conversion [Mode(i)] for the integers that name a mode. *)
Definition modeOf (i : Z) : option Single.Mode :=
  if i =? 0 then Some Single.ModeVideo
  else if i =? 1 then Some Single.ModeAudio
  else if i =? 2 then Some Single.ModeSubs
  else if i =? 3 then Some Single.ModeAll
  else if i =? 4 then Some Single.ModeSummary
  else None.

Section Selector.
Context (cfg : Config).

(** [initialModel] (main.go 68-85). *)
Definition initialModel (url : gostring) : model :=
  let state := stateURLInput in
  let state := if negb (streq url (lit "")) then stateLoading else state in
  let dir := lit "." in
  let dir := if negb (streq (outputDir cfg) (lit "")) then outputDir cfg else dir in
  {| url := url;
     choices := [lit "Video (best quality)"; lit "Audio (mp3)";
                 lit "Subtitles (text)"; lit "All of the above";
                 lit "Summary (AI)"];
     cursor := 0;
     selected := 0;
     done := false;
     quitting := false;
     title := lit "";
     outPath := dir ++ lit "/video";
     editing := false;
     editBuf := lit "";
     state := state |}.

(** [model.Update] (main.go 94-174).  The result is [None] only when a
    backspace would cut a string inside a character. *)
Definition Update (m : model) (msg : SelMsg) : option (model * SelCmd) :=
  match msg with
  | titleMsg t =>
      let m := with_title t m in
      let dir := lit "." in
      let dir :=
        if negb (streq (outputDir cfg) (lit "")) then outputDir cfg else dir in
      let m := with_outPath (dir ++ lit "/" ++ sanitizeFilename (title m)) m in
      let m := with_state stateMenu m in
      Some (m, selNil)
  | errMsg _ =>
      let m := with_state stateMenu m in
      Some (m, selNil)
  | KeyMsg k =>
      match state m with
      | stateURLInput =>
          match keyType k with
          | KeyCtrlC => Some (with_quitting true m, selQuit)
          | KeyEnter =>
              if negb (streq (url m) (lit "")) then
                let m := with_state stateLoading m in
                Some (m, selFetchTitle (url m))
              else Some (m, selNil)
          | KeyBackspace =>
              if 0 <? len (url m) then
                u ← dropLastByte (url m); Some (with_url u m, selNil)
              else Some (m, selNil)
          | KeyRunes => Some (with_url (url m ++ keyRunes k) m, selNil)
          | _ => Some (m, selNil)
          end
      | _ =>
          if editing m then
            match keyType k with
            | KeyEnter =>
                let m := with_outPath (editBuf m) m in
                Some (with_editing false m, selNil)
            | KeyEscape => Some (with_editing false m, selNil)
            | KeyBackspace =>
                if 0 <? len (editBuf m) then
                  b ← dropLastByte (editBuf m); Some (with_editBuf b m, selNil)
                else Some (m, selNil)
            | KeyRunes => Some (with_editBuf (editBuf m ++ keyRunes k) m, selNil)
            | _ => Some (m, selNil)
            end
          else
            let key := keyString k in
            if streq key (lit "ctrl+c") || streq key (lit "q") then
              Some (with_quitting true m, selQuit)
            else if streq key (lit "up") || streq key (lit "k") then
              let m := if 0 <? cursor m then with_cursor (cursor m - 1) m else m in
              Some (m, selNil)
            else if streq key (lit "down") || streq key (lit "j") then
              let m :=
                if cursor m <? Z.of_nat (length (choices m)) - 1
                then with_cursor (cursor m + 1) m else m in
              Some (m, selNil)
            else if streq key (lit "enter") || streq key (lit " ") then
              let m := with_selected (cursor m) m in
              let m := with_done true m in
              Some (m, selQuit)
            else if streq key (lit "e") then
              let m := with_editing true m in
              let m := with_editBuf (outPath m) m in
              Some (m, selNil)
            else Some (m, selNil)
      end
  | otherSelMsg => Some (m, selNil)
  end.

(** [model.getFilenames] (main.go 258-273), which [View] displays for the
    entry under the cursor. *)
Definition getFilenames (m : model) : gostring :=
  match modeOf (cursor m) with
  | Some Single.ModeVideo => outPath m ++ lit ".mp4"
  | Some Single.ModeAudio => outPath m ++ lit ".mp3"
  | Some Single.ModeSubs => outPath m ++ lit ".txt"
  | Some Single.ModeAll => outPath m ++ lit ".{mp4,mp3,txt}"
  | Some Single.ModeSummary => lit "(summary printed to stdout)"
  | None => lit ""
  end.

Inductive reachable (url0 : gostring) : model → Prop :=
| reach_init : reachable url0 (initialModel url0)
| reach_step m msg m' c :
    reachable url0 m → Update m msg = Some (m', c) → reachable url0 m'.

End Selector.
End SingleUI.

(** ** The entry points *)

(** What [main] gets from its environment: whether [exec.LookPath] finds
    the two tools, the values of the flags after [flag.Parse], the
    remaining arguments, and the result of [p.Run()] on the selector, which
    is looked at only when the selector is started. *)
Record MainInput (model : Type) := MkMainInput {
  ytdlpFound : bool;
  claudeFound : bool;
  videoFlag : bool;
  audioFlag : bool;
  subsFlag : bool;
  allFlag : bool;
  sumFlag : bool;
  promptFlag : gostring;
  outFlag : gostring;
  args : list gostring;
  selectorResult : model * option error
}.
Arguments ytdlpFound {model}.
Arguments claudeFound {model}.
Arguments videoFlag {model}.
Arguments audioFlag {model}.
Arguments subsFlag {model}.
Arguments allFlag {model}.
Arguments sumFlag {model}.
Arguments promptFlag {model}.
Arguments outFlag {model}.
Arguments args {model}.
Arguments selectorResult {model}.

(** [args[0]] when there is an argument, the empty string otherwise. *)
Definition firstArg (args : list gostring) : gostring :=
  match args with
  | a :: _ => a
  | [] => lit ""
  end.

Section Main.
Context {World : Type} (os : OS World).


(** [main] of the single-select variant (main.go 560-639); the result is
    the exit status.  This variant has no flag [-p] and does not look for
    the tools. *)
Definition Single_main (i : MainInput SingleUI.model) : M World Z :=
  let url := firstArg (args i) in
  let mode : Z := 0 in
  let flagSet := false in
  let '(mode, flagSet) :=
    if videoFlag i then (0, true)
    else if audioFlag i then (1, true)
    else if subsFlag i then (2, true)
    else if allFlag i then (3, true)
    else if sumFlag i then (4, true)
    else (mode, flagSet) in
  if flagSet && streq url (lit "") then mret 1
  else
    let download (customOutPath url : gostring) (mode : Z) :=
      e ← match SingleUI.modeOf mode with
          | Some md => Single.runDownload os (MkConfig (outFlag i) customOutPath) url md
          | None => mret None
          end;
      mret (match e with Some _ => 1 | None => 0 end) in
    if negb flagSet || streq url (lit "") then
      match selectorResult i with
      | (_, Some _) => mret 1
      | (finalModel, None) =>
          if SingleUI.quitting finalModel then mret 0
          else download (SingleUI.outPath finalModel)
                 (SingleUI.url finalModel) (SingleUI.selected finalModel)
      end
    else download (lit "") url mode.

End Main.

(** ** Definitions used in the statements *)

(** The discard condition of the line filter, on a trimmed line: the
    cases of the specification, the last one after the second trimming
    that the loop applies to the stripped text. *)
Definition discardSpec (line : gostring) : Prop :=
  line = lit ""
  ∨ line = lit "WEBVTT"
  ∨ line = lit "Kind: captions"
  ∨ lit "Language:" `prefix_of` line
  ∨ lit "NOTE" `prefix_of` line
  ∨ (∃ a b, line = a ++ lit "-->" ++ b)
  ∨ (chr ":" ∈ line ∧ (chr "." ∈ line ∨ chr "," ∈ line) ∧ len line < 30)
  ∨ TrimSpace (stripTags line) = lit "".

(** The same condition with its last case read to the letter: the line
    is empty right after tag stripping, before the second trimming. *)
Definition discardLiteral (line : gostring) : Prop :=
  line = lit ""
  ∨ line = lit "WEBVTT"
  ∨ line = lit "Kind: captions"
  ∨ lit "Language:" `prefix_of` line
  ∨ lit "NOTE" `prefix_of` line
  ∨ (∃ a b, line = a ++ lit "-->" ++ b)
  ∨ (chr ":" ∈ line ∧ (chr "." ∈ line ∨ chr "," ∈ line) ∧ len line < 30)
  ∨ stripTags line = lit "".

(** The text of a line that passes the filter: trimmed, without tags,
    trimmed again. *)
Definition cleanLine (raw : gostring) : option gostring :=
  let line := TrimSpace raw in
  if skipLine line then None
  else
    let line := TrimSpace (stripTags line) in
    if streq line (lit "") then None else Some line.

(** The cleaned lines of a file, in the order of the file, with repetitions. *)
Definition cleanedLines (content : gostring) : list gostring :=
  omap cleanLine (Split content newline).

(** The lines that [extractText] keeps, before they are joined. *)
Definition keptLines (content : gostring) : list gostring :=
  textLines (fold_left extractText_body (Split content newline) loopInit).

(** First-occurrence deduplication, as a specification: the head stays
    and is removed from everything that follows. *)
Fixpoint keepFirst (l : list gostring) : list gostring :=
  match l with
  | [] => []
  | x :: l' => x :: filter (λ y, y ≠ x) (keepFirst l')
  end.

(** The flag [inTag] of [stripTags] after the runes of [s]. *)
Fixpoint inTagAfter (inTag : bool) (s : gostring) : bool :=
  match s with
  | [] => inTag
  | r :: s' =>
      if (r =? chr "<")%N then inTagAfter true s'
      else if (r =? chr ">")%N then inTagAfter false s'
      else inTagAfter inTag s'
  end.

(** Three consecutive cue blocks, each a cue-timing line followed by
    the text lines [l1] and [l2] and an empty line. *)
Definition cueBlocks (l1 l2 : gostring) : gostring :=
  lit "00:00:01.000 --> 00:00:03.000" ++ nl ++ l1 ++ nl ++ l2 ++ nl ++ nl
  ++ lit "00:00:03.000 --> 00:00:05.000" ++ nl ++ l1 ++ nl ++ l2 ++ nl ++ nl
  ++ lit "00:00:05.000 --> 00:00:07.000" ++ nl ++ l1 ++ nl ++ l2 ++ nl.

Definition cueHello : gostring := lit "<00:00:01.000><c> hello</c>".
Definition cueWorld : gostring := lit "<00:00:02.000><c> world</c>".

(** A caption line with an inline timestamp tag whose text is short and
    holds a colon and a comma. *)
Definition cueClock : gostring :=
  lit "<00:00:01.000><c> it is 4:30, right?</c>".

(** An environment for the examples: external commands fail as [fails]
    says, files and directories are read from two tables, and writing
    succeeds without changing what is read. *)
Definition tableOS (fails : Cmd -> option error)
    (files : gostring -> option gostring)
    (dirs : gostring -> option (list gostring)) : OS unit :=
  {| os_Run := λ c w, (fails c, w);
     os_ReadFile := λ name _,
       match files name with
       | Some data => (data, None)
       | None => (lit "", Some (osError (lit "no such file or directory")))
       end;
     os_WriteFile := λ _ _ w, (None, w);
     os_ReadDir := λ dir _,
       match dirs dir with
       | Some names => (names, None)
       | None => ([], Some (osError (lit "no such file or directory")))
       end;
     os_Remove := λ _ w, w;
     os_MkdirTemp := λ _ pattern w, ((lit "/tmp/" ++ pattern ++ lit "1", None), w);
     os_RemoveAll := λ _ w, w |}.

Definition exitStatus1 : error := osError (lit "exit status 1").

Definition startState : State unit := MkState tt [].

(** The characters that [sanitizeFilename] replaces by ['-'], and those
    that it deletes. *)
Definition replacedRunes : list rune := [chr "/"; chr "\"; chr ":"].
Definition deletedRunes : list rune :=
  [chr "*"; chr "?"; dquote; chr "<"; chr ">"; chr "|"].

(** The map [seen] holds exactly the lines kept so far. *)
Definition seenInv (st : loopState) : Prop :=
  ∀ x, seenAt (seen st) x = true ↔ x ∈ textLines st.

(** A line in normal form: non-empty, trimmed, on one line, without tag
    delimiters, and not matched by the header and timing filter. *)
Definition normalLine (line : gostring) : Prop :=
  line ≠ lit "" ∧ TrimSpace line = line ∧ (newline ∉ line)
  ∧ (chr "<" ∉ line) ∧ (chr ">" ∉ line) ∧ skipLine line = false.


(** Some state of the world in which the file [name] reads as [content]. *)
Definition readableIn {World : Type} (os : OS World) (name content : gostring)
  : Prop :=
  ∃ w, os_ReadFile os name w = (content, None).

(** The command by which [downloadSummary] fetches the captions into the
    temporary directory (main.go 403-411, part_000 664-672). *)
Definition summaryFetchCmd (tmpDir url : gostring) : Cmd :=
  Command (lit "yt-dlp")
    [lit "--write-subs"; lit "--write-auto-subs";
     lit "--sub-lang"; lit "en"; lit "--sub-format"; lit "vtt";
     lit "--skip-download";
     lit "-o"; tmpDir ++ lit "/%(title)s.%(ext)s"; url] None.

(** The command by which [downloadSummary] hands a transcript to the
    summarizer (part_000 706-707). *)
Definition summarizeCmd (prompt transcript : gostring) : Cmd :=
  Command (lit "claude") [lit "-p"; prompt] (Some transcript).

(** An event that changes no file of the user: a command or the listing
    of a directory. *)
Definition isReadOnly (ev : Event) : bool :=
  match ev with
  | EvRun _ | EvReadDir _ => true
  | _ => false
  end.

(** The input [i] with its five selection flags replaced. *)
Definition withFlags {model : Type} (v a s all sum : bool)
    (i : MainInput model) : MainInput model :=
  MkMainInput model (ytdlpFound i) (claudeFound i) v a s all sum
    (promptFlag i) (outFlag i) (args i) (selectorResult i).

(** ** Proof tactics *)

Ltac case_rune r c :=
  destruct (N.eqb_spec r c) as [->|?]; [vm_compute; reflexivity|].

Tactic Notation "munfold" :=
  unfold mbind, M_bind, bind, mret, M_ret, ret, fmap, option_fmap, option_map.
Tactic Notation "munfold" "in" hyp(H) :=
  unfold mbind, M_bind, bind, mret, M_ret, ret, fmap, option_fmap, option_map
    in H.

(** ** Go strings: basic facts *)

Lemma streq_true (a b : gostring) : streq a b = true ↔ a = b.
Proof. unfold streq. apply bool_decide_eq_true. Qed.

Lemma streq_false (a b : gostring) : streq a b = false ↔ a ≠ b.
Proof. unfold streq. apply bool_decide_eq_false. Qed.

Lemma HasPrefix_prefix (s p : gostring) :
  HasPrefix s p = true ↔ p `prefix_of` s.
Proof.
  revert s. induction p as [|c p IH]; intros s; simpl.
  - split; [intros _; apply prefix_nil | done].
  - destruct s as [|r s].
    + split; [done | intros H; by apply prefix_nil_inv in H].
    + rewrite andb_true_iff, N.eqb_eq, IH. split.
      * intros [-> H]. by apply prefix_cons.
      * intros H. split.
        -- symmetry. by apply prefix_cons_inv_1 in H.
        -- by apply prefix_cons_inv_2 in H.
Qed.

Lemma Contains_infix (s sub : gostring) :
  Contains s sub = true ↔ ∃ a b, s = a ++ sub ++ b.
Proof.
  induction s as [|r s IH].
  - cbn [Contains]. rewrite orb_false_r, HasPrefix_prefix. split.
    + intros [k Hk]. exists [], k. exact Hk.
    + intros (a & b & H). symmetry in H.
      apply app_eq_nil in H as [-> H]. apply app_eq_nil in H as [-> ->].
      done.
  - cbn [Contains]. rewrite orb_true_iff, HasPrefix_prefix, IH. split.
    + intros [[k Hk] | (a & b & ->)].
      * exists [], k. exact Hk.
      * exists (r :: a), b. reflexivity.
    + intros (a & b & H). destruct a as [|x a].
      * left. exists b. exact H.
      * right. simpl in H. injection H as _ ->. eauto.
Qed.

Lemma Contains_rune (s : gostring) (c : rune) :
  Contains s [c] = true ↔ c ∈ s.
Proof.
  rewrite Contains_infix. split.
  - intros (a & b & ->). set_solver.
  - intros H. apply list_elem_of_split in H as (a & b & ->). by exists a, b.
Qed.

Lemma RuneLen_pos (r : rune) : 0 < RuneLen r.
Proof. unfold RuneLen. repeat case_match; lia. Qed.

Lemma len_nonneg (s : gostring) : 0 ≤ len s.
Proof. induction s as [|r s IH]; simpl; [lia | pose proof (RuneLen_pos r); lia]. Qed.

Lemma len_app (a b : gostring) : len (a ++ b) = len a + len b.
Proof. induction a as [|r a IH]; simpl; lia. Qed.

(** *** TrimSpace *)

Lemma TrimLeftSpace_suffix (s : gostring) : TrimLeftSpace s `suffix_of` s.
Proof.
  induction s as [|r s IH]; simpl; [done|].
  destruct (IsSpace r); [by apply suffix_cons_r | done].
Qed.

Lemma TrimRightSpace_prefix (s : gostring) : TrimRightSpace s `prefix_of` s.
Proof.
  induction s as [|r s IH]; simpl; [done|].
  destruct (TrimRightSpace s) as [|x t] eqn:E.
  - destruct (IsSpace r); [apply prefix_nil | by apply prefix_cons, prefix_nil].
  - by apply prefix_cons.
Qed.

Lemma TrimSpace_elem (s : gostring) (r : rune) : r ∈ TrimSpace s → r ∈ s.
Proof.
  unfold TrimSpace. intros H.
  destruct (TrimRightSpace_prefix (TrimLeftSpace s)) as [k Hk].
  destruct (TrimLeftSpace_suffix s) as [k' Hk'].
  rewrite Hk', Hk. set_solver.
Qed.

Lemma TrimLeftSpace_head (s : gostring) :
  match TrimLeftSpace s with [] => True | r :: _ => IsSpace r = false end.
Proof.
  induction s as [|r s IH]; simpl; [done|].
  destruct (IsSpace r) eqn:E; [done | by rewrite E].
Qed.

Lemma TrimLeftSpace_id (s : gostring) :
  match s with [] => True | r :: _ => IsSpace r = false end →
  TrimLeftSpace s = s.
Proof. destruct s as [|r s]; simpl; [done | by intros ->]. Qed.

Lemma TrimRightSpace_head (s : gostring) :
  match s with [] => True | r :: _ => IsSpace r = false end →
  match TrimRightSpace s with [] => True | r :: _ => IsSpace r = false end.
Proof.
  destruct s as [|r s]; simpl; [done|]. intros Hr.
  destruct (TrimRightSpace s); by rewrite ?Hr.
Qed.

Lemma TrimRightSpace_idem (s : gostring) :
  TrimRightSpace (TrimRightSpace s) = TrimRightSpace s.
Proof.
  induction s as [|r s IH]; simpl; [done|].
  destruct (TrimRightSpace s) as [|x t] eqn:E.
  - destruct (IsSpace r) eqn:Er; simpl; [done | by rewrite Er].
  - change (TrimRightSpace (r :: x :: t))
      with (match TrimRightSpace (x :: t) with
            | [] => if IsSpace r then [] else [r]
            | t' => r :: t'
            end).
    by rewrite IH.
Qed.

Lemma TrimSpace_idem (s : gostring) : TrimSpace (TrimSpace s) = TrimSpace s.
Proof.
  unfold TrimSpace.
  rewrite (TrimLeftSpace_id (TrimRightSpace (TrimLeftSpace s))).
  - apply TrimRightSpace_idem.
  - apply TrimRightSpace_head, TrimLeftSpace_head.
Qed.

(** ** stripTags *)

Lemma stripTags_loop_acc (s : gostring) (b : bool) (acc : gostring) :
  stripTags_loop b acc s = acc ++ stripTags_loop b [] s.
Proof.
  revert b acc. induction s as [|r s IH]; intros b acc; simpl.
  - by rewrite app_nil_r.
  - repeat case_match; try apply IH.
    rewrite (IH _ (acc ++ [r])), (IH _ [r]). by rewrite <- app_assoc.
Qed.

Lemma stripTags_loop_app (s1 s2 : gostring) (b : bool) :
  stripTags_loop b [] (s1 ++ s2)
  = stripTags_loop b [] s1 ++ stripTags_loop (inTagAfter b s1) [] s2.
Proof.
  revert b. induction s1 as [|r s1 IH]; intros b; simpl; [done|].
  repeat case_match; try apply IH.
  rewrite (stripTags_loop_acc _ _ [r]), (stripTags_loop_acc s1 _ [r]).
  rewrite IH. by rewrite <- app_assoc.
Qed.

Lemma stripTags_loop_elem (s : gostring) (b : bool) (r : rune) :
  r ∈ stripTags_loop b [] s → r ∈ s ∧ r ≠ chr "<" ∧ r ≠ chr ">".
Proof.
  revert b. induction s as [|x s IH]; intros b; simpl.
  - by intros ?%elem_of_nil.
  - destruct (N.eqb_spec x (chr "<")) as [Hlt|Hlt].
    { intros H%IH. set_solver. }
    destruct (N.eqb_spec x (chr ">")) as [Hgt|Hgt].
    { intros H%IH. set_solver. }
    destruct b; simpl.
    + intros H%IH. set_solver.
    + rewrite stripTags_loop_acc. intros [H|H%IH]%elem_of_app.
      * apply list_elem_of_singleton in H as ->. set_solver.
      * set_solver.
Qed.

Lemma stripTags_loop_in_tag (body : gostring) :
  chr ">" ∉ body →
  stripTags_loop true [] body = [] ∧ inTagAfter true body = true.
Proof.
  induction body as [|x s IH]; simpl; [done|].
  intros H. apply not_elem_of_cons in H as [Hx Hs].
  destruct (N.eqb_spec x (chr "<")); [by apply IH|].
  destruct (N.eqb_spec x (chr ">")); [congruence|]. by apply IH.
Qed.

Lemma stripTags_plain (s : gostring) :
  chr "<" ∉ s → chr ">" ∉ s → stripTags s = s.
Proof.
  unfold stripTags. induction s as [|x s IH]; simpl; [done|].
  intros [H1 H1']%not_elem_of_cons [H2 H2']%not_elem_of_cons.
  destruct (N.eqb_spec x (chr "<")); [congruence|].
  destruct (N.eqb_spec x (chr ">")); [congruence|].
  rewrite stripTags_loop_acc. simpl. f_equal. by apply IH.
Qed.

(** C10: the output of [stripTags] holds neither ['<'] nor ['>']; a tag,
    from a ['<'] to the next ['>'], is removed with its delimiters, and
    after a ['<'] that is never closed the rest of the string is removed. *)
Theorem stripTags_removes_tags (s : gostring) :
  (chr "<" ∉ stripTags s) ∧ (chr ">" ∉ stripTags s)
  ∧ (∀ pre body post, s = pre ++ chr "<" :: body ++ chr ">" :: post →
       chr ">" ∉ body → stripTags s = stripTags pre ++ stripTags post)
  ∧ (∀ pre rest, s = pre ++ chr "<" :: rest →
       chr ">" ∉ rest → stripTags s = stripTags pre).
Proof.
  split_and!.
  - intros H. apply stripTags_loop_elem in H. naive_solver.
  - intros H. apply stripTags_loop_elem in H. naive_solver.
  - intros pre body post -> Hbody. unfold stripTags.
    rewrite stripTags_loop_app. f_equal.
    cbn [stripTags_loop]. rewrite N.eqb_refl.
    rewrite stripTags_loop_app.
    destruct (stripTags_loop_in_tag body Hbody) as [-> ->].
    cbn [stripTags_loop app]. by vm_compute (_ =? _)%N.
  - intros pre rest -> Hrest. unfold stripTags.
    rewrite stripTags_loop_app.
    cbn [stripTags_loop]. rewrite N.eqb_refl.
    destruct (stripTags_loop_in_tag rest Hrest) as [-> _].
    by rewrite app_nil_r.
Qed.

(** The theorem at the line ["a<b>c<d"]. *)
Lemma stripTags_removes_tags_witness :
  stripTags (lit "a<b>c<d") = lit "ac"
  ∧ stripTags (lit "a<b>c<d") = stripTags (lit "a") ++ stripTags (lit "c<d")
  ∧ stripTags (lit "a<b>c<d") = stripTags (lit "a<b>c").
Proof.
  split; [reflexivity|].
  destruct (stripTags_removes_tags (lit "a<b>c<d")) as (_ & _ & H1 & H2).
  split.
  - apply (H1 (lit "a") (lit "b") (lit "c<d")); [reflexivity|].
    vm_compute. intros H. repeat (apply elem_of_cons in H as [H|H]; [discriminate|]).
    by apply elem_of_nil in H.
  - apply (H2 (lit "a<b>c") (lit "d")); [reflexivity|].
    vm_compute. intros H. repeat (apply elem_of_cons in H as [H|H]; [discriminate|]).
    by apply elem_of_nil in H.
Defined.

(** ** sanitizeFilename *)

Lemma sanitizeFilename_cons (r : rune) (s : gostring) :
  sanitizeFilename (r :: s) = sanitizeFilename [r] ++ sanitizeFilename s.
Proof.
  unfold sanitizeFilename. cbn [Replace].
  destruct (replacement _ r); [by rewrite app_nil_r | done].
Qed.

Lemma sanitizeFilename_rune (r : rune) :
  sanitizeFilename [r] =
    if bool_decide (r ∈ replacedRunes) then lit "-"
    else if bool_decide (r ∈ deletedRunes) then lit ""
    else [r].
Proof.
  unfold sanitizeFilename, replacedRunes, deletedRunes.
  cbn [Replace replacement].
  case_rune r (chr "/"). case_rune r (chr "\"). case_rune r (chr ":").
  case_rune r (chr "*"). case_rune r (chr "?"). case_rune r dquote.
  case_rune r (chr "<"). case_rune r (chr ">"). case_rune r (chr "|").
  rewrite !bool_decide_eq_false_2
    by (rewrite !elem_of_cons, elem_of_nil; naive_solver).
  reflexivity.
Qed.

(** C3: [sanitizeFilename] works character by character: ['/'], ['\'] and
    [':'] become ['-'], the asterisk, the question mark, the double quote,
    ['<'], ['>'] and ['|'] disappear, every
    other character stays; hence none of the nine characters occurs in
    the result. *)
Theorem sanitizeFilename_contract (s : gostring) :
  sanitizeFilename s
  = flat_map (λ r, if bool_decide (r ∈ replacedRunes) then [chr "-"]
                   else if bool_decide (r ∈ deletedRunes) then []
                   else [r]) s
  ∧ ∀ r, r ∈ replacedRunes ++ deletedRunes → r ∉ sanitizeFilename s.
Proof.
  assert (Heq : sanitizeFilename s
    = flat_map (λ r, if bool_decide (r ∈ replacedRunes) then [chr "-"]
                     else if bool_decide (r ∈ deletedRunes) then []
                     else [r]) s).
  { induction s as [|r s IH]; [done|].
    rewrite sanitizeFilename_cons, sanitizeFilename_rune, IH.
    cbn [flat_map]. repeat case_match; reflexivity. }
  split; [exact Heq|].
  intros r Hr. rewrite Heq. intros Hin.
  apply list_elem_of_In, in_flat_map in Hin as (x & _ & Hx).
  apply list_elem_of_In in Hx.
  destruct (bool_decide (x ∈ replacedRunes)) eqn:E1.
  - apply list_elem_of_singleton in Hx as ->.
    vm_compute in Hr.
    repeat (apply elem_of_cons in Hr as [Hr|Hr]; [discriminate|]).
    by apply elem_of_nil in Hr.
  - destruct (bool_decide (x ∈ deletedRunes)) eqn:E2.
    + by apply elem_of_nil in Hx.
    + apply list_elem_of_singleton in Hx as ->.
      apply bool_decide_eq_false in E1, E2.
      apply elem_of_app in Hr as [?|?]; done.
Qed.

(** The theorem at the title ["a/b: c?"]. *)
Lemma sanitizeFilename_contract_witness :
  sanitizeFilename (lit "a/b: c?") = lit "a-b- c"
  ∧ chr "/" ∉ sanitizeFilename (lit "a/b: c?").
Proof.
  split; [reflexivity|].
  apply (proj2 (sanitizeFilename_contract (lit "a/b: c?")) (chr "/")).
  vm_compute. apply list_elem_of_here.
Defined.

(** ** The line filter *)

Lemma isTimestamp_spec (line : gostring) :
  isTimestamp line = true
  ↔ chr ":" ∈ line ∧ (chr "." ∈ line ∨ chr "," ∈ line) ∧ len line < 30.
Proof.
  unfold isTimestamp.
  change (lit ":") with [chr ":"]. change (lit ".") with [chr "."].
  change (lit ",") with [chr ","].
  rewrite !andb_true_iff, orb_true_iff, !Contains_rune, Z.ltb_lt.
  tauto.
Qed.

Lemma skipLine_spec (line : gostring) :
  skipLine line = true
  ↔ line = lit "" ∨ line = lit "WEBVTT" ∨ line = lit "Kind: captions"
    ∨ lit "Language:" `prefix_of` line ∨ lit "NOTE" `prefix_of` line
    ∨ (∃ a b, line = a ++ lit "-->" ++ b)
    ∨ (chr ":" ∈ line ∧ (chr "." ∈ line ∨ chr "," ∈ line) ∧ len line < 30).
Proof.
  unfold skipLine.
  rewrite !orb_true_iff, !streq_true, !HasPrefix_prefix, Contains_infix,
    isTimestamp_spec.
  tauto.
Qed.

Lemma discardSpec_skip (line : gostring) :
  discardSpec line
  ↔ skipLine line = true ∨ streq (TrimSpace (stripTags line)) (lit "") = true.
Proof. unfold discardSpec. rewrite skipLine_spec, streq_true. tauto. Qed.

Lemma bodies_agree (st : loopState) (raw : gostring) :
  dedupeVTT_body st raw = extractText_body st raw.
Proof. reflexivity. Qed.

Lemma cleanLine_body (st : loopState) (raw : gostring) :
  extractText_body st raw =
    match cleanLine raw with
    | None => st
    | Some text =>
        if seenAt (seen st) text then st
        else LoopState (textLines st ++ [text]) (<[text := true]> (seen st))
    end.
Proof.
  unfold extractText_body, cleanLine.
  destruct (skipLine _); [done|].
  destruct (streq _ _); [done|].
  by destruct (seenAt _ _).
Qed.

Lemma body_discarded (st : loopState) (raw : gostring) :
  discardSpec (TrimSpace raw) → extractText_body st raw = st.
Proof.
  intros [H|H]%discardSpec_skip; rewrite cleanLine_body; unfold cleanLine.
  - by rewrite H.
  - destruct (skipLine _); [done|]. by rewrite H.
Qed.

Lemma body_kept (st : loopState) (raw : gostring) :
  ¬ discardSpec (TrimSpace raw) →
  cleanLine raw = Some (TrimSpace (stripTags (TrimSpace raw))).
Proof.
  intros H. rewrite discardSpec_skip in H. unfold cleanLine.
  destruct (skipLine _) eqn:Es; [exfalso; apply H; by left|].
  destruct (streq _ _) eqn:Et; [exfalso; apply H; by right|]. done.
Qed.

Lemma discardLiteral_skip (line : gostring) :
  discardLiteral line
  ↔ skipLine line = true ∨ streq (stripTags line) (lit "") = true.
Proof. unfold discardLiteral. rewrite skipLine_spec, streq_true. tauto. Qed.

(** C1, as stated, fails for a line that holds only tags and white space:
    after tag stripping it is a blank, not the empty string, and the loop
    discards it all the same, because it trims the stripped text again. *)
Lemma line_filter_blank_in_tags :
  stripTags (TrimSpace (lit "<c> </c>")) = lit " "
  ∧ ¬ discardLiteral (TrimSpace (lit "<c> </c>"))
  ∧ extractText_body loopInit (lit "<c> </c>") = loopInit
  ∧ dedupeVTT_body loopInit (lit "<c> </c>") = loopInit.
Proof.
  split_and!; [reflexivity | | reflexivity | reflexivity].
  rewrite discardLiteral_skip. vm_compute. intros [H|H]; discriminate H.
Qed.

(** C1, amended: a line is discarded by the filter of [extractText] and of
    [dedupeVTT] exactly when, once trimmed, it is empty, is [WEBVTT], is
    [Kind: captions], starts with [Language:] or with [NOTE], contains
    the cue separator, satisfies the timestamp heuristic, or is empty
    after tag stripping and a second trimming.  Every other line passes
    the filter: its cleaned text reaches the deduplication, which appends
    it unless it was seen. *)
Theorem line_filter (st : loopState) (raw : gostring) :
  let line := TrimSpace raw in
  let text := TrimSpace (stripTags line) in
  let appended :=
    if seenAt (seen st) text then st
    else LoopState (textLines st ++ [text]) (<[text := true]> (seen st)) in
  (discardSpec line →
     extractText_body st raw = st ∧ dedupeVTT_body st raw = st)
  ∧ (¬ discardSpec line →
     extractText_body st raw = appended ∧ dedupeVTT_body st raw = appended)
  ∧ (extractText_body loopInit raw = loopInit ↔ discardSpec line)
  ∧ (dedupeVTT_body loopInit raw = loopInit ↔ discardSpec line).
Proof.
  intros line text appended.
  change dedupeVTT_body with extractText_body.
  assert (Hd : discardSpec line → extractText_body st raw = st).
  { intros [H|H]%discardSpec_skip; unfold extractText_body; fold line.
    - by rewrite H.
    - destruct (skipLine line); [done|]. fold text in H |- *. by rewrite H. }
  assert (Hk : ∀ st0, ¬ discardSpec line →
    extractText_body st0 raw =
      if seenAt (seen st0) text then st0
      else LoopState (textLines st0 ++ [text]) (<[text := true]> (seen st0))).
  { intros st0 H. rewrite discardSpec_skip in H.
    unfold extractText_body. fold line.
    destruct (skipLine line) eqn:Es; [exfalso; apply H; by left|]. fold text.
    destruct (streq text (lit "")) eqn:Et; [exfalso; apply H; by right|].
    destruct (seenAt (seen st0) text); reflexivity. }
  assert (Hi : extractText_body loopInit raw = loopInit ↔ discardSpec line).
  { split.
    - intros Heq. destruct (decide (skipLine line = true)) as [Hs|Hs].
      { apply discardSpec_skip. by left. }
      destruct (decide (streq text (lit "") = true)) as [Ht|Ht].
      { apply discardSpec_skip. by right. }
      exfalso. rewrite Hk in Heq.
      + unfold loopInit, seenAt in Heq. cbn [seen textLines] in Heq.
        rewrite lookup_empty in Heq. discriminate Heq.
      + rewrite discardSpec_skip. tauto.
    - intros H. unfold extractText_body. fold line.
      apply discardSpec_skip in H as [H|H]; [by rewrite H|].
      destruct (skipLine line); [done|]. fold text in H |- *. by rewrite H. }
  split_and!; [by split; auto | by split; auto | exact Hi | exact Hi].
Qed.

(** The theorem at a header line and at a tagged line. *)
Lemma line_filter_witness :
  extractText_body loopInit (lit " WEBVTT ") = loopInit
  ∧ textLines (extractText_body loopInit (lit " <c>hi</c> ")) = [lit "hi"].
Proof.
  split.
  - apply (line_filter loopInit (lit " WEBVTT ")).
    right. left. reflexivity.
  - destruct (line_filter loopInit (lit " <c>hi</c> ")) as (_ & H & _).
    destruct H as [-> _]; [|reflexivity].
    rewrite discardSpec_skip. vm_compute. intros [H|H]; discriminate H.
Defined.

(** ** Split and Join *)

Lemma Split_nonempty (s : gostring) (sep : rune) : Split s sep ≠ [].
Proof.
  destruct s as [|r s]; simpl; [done|].
  destruct (r =? sep)%N; [done|]. by destruct (Split s sep).
Qed.

Lemma Split_no_sep (s : gostring) (sep : rune) :
  Forall (λ l, sep ∉ l) (Split s sep).
Proof.
  induction s as [|r s IH]; simpl.
  - repeat constructor. by intros ?%elem_of_nil.
  - destruct (N.eqb_spec r sep) as [->|Hne].
    + constructor; [by intros ?%elem_of_nil | done].
    + destruct (Split s sep) as [|l ls] eqn:E; [by apply Split_nonempty in E|].
      inversion IH as [|? ? Hl Hls]; subst. constructor; [|done].
      intros [?|?]%elem_of_cons; [congruence | done].
Qed.

Lemma Split_plain (x : gostring) (sep : rune) :
  sep ∉ x → Split x sep = [x].
Proof.
  induction x as [|r x IH]; simpl; [done|].
  intros [Hr Hx]%not_elem_of_cons.
  destruct (N.eqb_spec r sep); [congruence|]. by rewrite IH.
Qed.

Lemma Split_app_sep (x rest : gostring) (sep : rune) :
  sep ∉ x → Split (x ++ sep :: rest) sep = x :: Split rest sep.
Proof.
  induction x as [|r x IH]; simpl.
  - intros _. by rewrite N.eqb_refl.
  - intros [Hr Hx]%not_elem_of_cons.
    destruct (N.eqb_spec r sep); [congruence|]. by rewrite IH.
Qed.

Lemma Split_Join (lines : list gostring) :
  lines ≠ [] → Forall (λ l, newline ∉ l) lines →
  Split (Join lines nl) newline = lines.
Proof.
  induction lines as [|x lines IH]; [done|]. intros _ Hall.
  inversion Hall as [|? ? Hx Hrest]; subst.
  destruct lines as [|y lines].
  - simpl. by apply Split_plain.
  - change (Join (x :: y :: lines) nl)
      with (x ++ newline :: Join (y :: lines) nl).
    rewrite Split_app_sep by done. f_equal. by apply IH.
Qed.

(** ** Deduplication *)

Lemma keepFirst_elem (l : list gostring) (x : gostring) :
  x ∈ keepFirst l ↔ x ∈ l.
Proof.
  induction l as [|y l IH]; simpl; [done|].
  rewrite !elem_of_cons, list_elem_of_filter, IH.
  destruct (decide (x = y)); naive_solver.
Qed.

Lemma keepFirst_NoDup (l : list gostring) : NoDup (keepFirst l).
Proof.
  induction l as [|y l IH]; simpl; [constructor|].
  apply NoDup_cons. split.
  - rewrite list_elem_of_filter. naive_solver.
  - by apply NoDup_filter.
Qed.

Lemma keepFirst_sublist (l : list gostring) : keepFirst l `sublist_of` l.
Proof.
  induction l as [|y l IH]; simpl; [done|].
  apply sublist_skip. etrans; [apply sublist_filter|done].
Qed.

Lemma filter_split (P : gostring → Prop) `{∀ x, Decision (P x)}
    (l pre post : list gostring) (x : gostring) :
  filter P l = pre ++ x :: post →
  ∃ a b, l = a ++ x :: b ∧ filter P a = pre ∧ filter P b = post.
Proof.
  revert pre. induction l as [|y l IH]; intros pre Heq.
  - rewrite filter_nil in Heq. by destruct pre.
  - rewrite filter_cons in Heq. destruct (decide (P y)) as [Hy|Hy].
    + destruct pre as [|p pre]; simplify_eq/=.
      * exists [], l. by rewrite filter_nil.
      * destruct (IH pre) as (a & b & -> & <- & <-); [done|].
        exists (p :: a), b. by rewrite filter_cons_True.
    + destruct (IH pre Heq) as (a & b & -> & <- & <-).
      exists (y :: a), b. by rewrite filter_cons_False.
Qed.

Lemma keepFirst_order (l pre mid post : list gostring) (x y : gostring) :
  keepFirst l = pre ++ x :: mid ++ y :: post →
  ∃ a b, l = a ++ x :: b ∧ (x ∉ a) ∧ (y ∉ a).
Proof.
  revert pre mid post.
  induction l as [|z l IH]; intros pre mid post Heq; simpl in Heq.
  - by destruct pre.
  - destruct pre as [|p pre]; simplify_eq/=.
    + exists [], l. split_and!; [done | | ]; by intros ?%elem_of_nil.
    + assert (Hin : ∀ w, w ∈ [x; y] →
                w ∈ filter (λ y0, y0 ≠ p) (keepFirst l)).
      { intros w Hw. rewrite H0. set_solver. }
      pose proof (Hin x ltac:(set_solver)) as [Hx _]%list_elem_of_filter.
      pose proof (Hin y ltac:(set_solver)) as [Hy _]%list_elem_of_filter.
      apply filter_split in H0 as (a1 & b1 & Hk & _ & Hb1).
      apply filter_split in Hb1 as (a2 & b2 & -> & _ & _).
      destruct (IH _ _ _ Hk) as (a & b & -> & Hxa & Hya).
      exists (p :: a), b. set_solver.
Qed.

Lemma seenInv_init : seenInv loopInit.
Proof.
  intros x. unfold seenAt, loopInit. cbn [seen textLines].
  rewrite lookup_empty. cbn. split; [done | by intros ?%elem_of_nil].
Qed.

Lemma seenInv_insert (st : loopState) (text : gostring) :
  seenInv st →
  seenInv (LoopState (textLines st ++ [text]) (<[text := true]> (seen st))).
Proof.
  intros Hinv x. specialize (Hinv x). unfold seenAt in *.
  cbn [seen textLines].
  rewrite elem_of_app, list_elem_of_singleton.
  destruct (decide (text = x)) as [->|Hne].
  - rewrite lookup_insert_eq. cbn. tauto.
  - rewrite lookup_insert_ne by done. naive_solver.
Qed.

Lemma fold_body_keepFirst (lines : list gostring) (st : loopState) :
  seenInv st →
  textLines (fold_left extractText_body lines st)
  = textLines st
    ++ filter (λ y, y ∉ textLines st) (keepFirst (omap cleanLine lines)).
Proof.
  revert st. induction lines as [|raw lines IH]; intros st Hinv.
  - cbn. by rewrite app_nil_r.
  - cbn [fold_left omap list_omap]. rewrite cleanLine_body.
    destruct (cleanLine raw) as [text|]; [|by apply IH].
    cbn [keepFirst]. destruct (seenAt (seen st) text) eqn:Es.
    + apply Hinv in Es. rewrite IH by done.
      rewrite filter_cons_False by tauto. f_equal.
      rewrite list_filter_filter. apply list_filter_iff.
      intros y. split; [|tauto]. intros Hy. split; [done|]. congruence.
    + assert (Hn : text ∉ textLines st).
      { intros Hin%Hinv. congruence. }
      rewrite IH by (by apply seenInv_insert). cbn [textLines].
      rewrite filter_cons_True by done.
      rewrite <- app_assoc. cbn [app]. do 2 f_equal.
      rewrite list_filter_filter. apply list_filter_iff.
      intros y. rewrite not_elem_of_app, list_elem_of_singleton. tauto.
Qed.

Lemma keptLines_keepFirst (content : gostring) :
  keptLines content = keepFirst (cleanedLines content).
Proof.
  unfold keptLines, cleanedLines.
  rewrite fold_body_keepFirst by apply seenInv_init.
  cbn [textLines loopInit app].
  induction (keepFirst _) as [|x l IH]; [done|].
  rewrite filter_cons_True by (by intros ?%elem_of_nil). by f_equal.
Qed.

Lemma cleanLine_shape (raw text : gostring) :
  cleanLine raw = Some text →
  text ≠ lit "" ∧ text = TrimSpace (stripTags (TrimSpace raw))
  ∧ skipLine (TrimSpace raw) = false.
Proof.
  unfold cleanLine. destruct (skipLine _); [done|].
  destruct (streq _ _) eqn:E; [done|]. intros [= <-].
  by apply streq_false in E.
Qed.

Lemma cleanLine_runes (raw text : gostring) (r : rune) :
  cleanLine raw = Some text → r ∈ text →
  r ∈ raw ∧ r ≠ chr "<" ∧ r ≠ chr ">".
Proof.
  intros (_ & -> & _)%cleanLine_shape Hr.
  apply TrimSpace_elem, stripTags_loop_elem in Hr as (Hr & ? & ?).
  by apply TrimSpace_elem in Hr.
Qed.

Lemma cleanedLines_shape (content text : gostring) :
  text ∈ cleanedLines content →
  text ≠ lit "" ∧ (newline ∉ text) ∧ (chr "<" ∉ text) ∧ (chr ">" ∉ text)
  ∧ TrimSpace text = text.
Proof.
  unfold cleanedLines. intros (raw & Hraw & Hc)%list_elem_of_omap.
  pose proof (Split_no_sep content newline) as Hall.
  rewrite Forall_forall in Hall. specialize (Hall _ Hraw).
  split_and!.
  - by apply cleanLine_shape in Hc as [? _].
  - intros Hin. by apply (cleanLine_runes _ _ _ Hc) in Hin as [? _].
  - intros Hin. by apply (cleanLine_runes _ _ _ Hc) in Hin as (_ & ? & _).
  - intros Hin. by apply (cleanLine_runes _ _ _ Hc) in Hin as (_ & _ & ?).
  - apply cleanLine_shape in Hc as (_ & -> & _). apply TrimSpace_idem.
Qed.

(** C2: every line that the normalizer emits is non-empty and occurs
    exactly once; of the cleaned lines of the input (trimmed, tags
    stripped) the first occurrence of each text is kept, in the order of
    the first occurrences.  The output string is these lines joined by
    newlines, and splitting it gives them back. *)
Theorem normalizer_lines_unique (content : gostring) :
  let out := keptLines content in
  extractText_of content = Join out nl
  ∧ dedupeVTT_of content = Join out nl
  ∧ (out ≠ [] → Split (Join out nl) newline = out)
  ∧ Forall (λ line, line ≠ lit "") out
  ∧ NoDup out
  ∧ (∀ text, text ∈ out ↔ text ∈ cleanedLines content)
  ∧ out `sublist_of` cleanedLines content
  ∧ out = keepFirst (cleanedLines content)
  ∧ (∀ pre x mid y post, out = pre ++ x :: mid ++ y :: post →
       ∃ a b, cleanedLines content = a ++ x :: b ∧ (x ∉ a) ∧ (y ∉ a)).
Proof.
  intros out. subst out. rewrite keptLines_keepFirst.
  split_and!.
  - unfold extractText_of. fold (keptLines content).
    by rewrite keptLines_keepFirst.
  - unfold dedupeVTT_of. change dedupeVTT_body with extractText_body.
    fold (keptLines content). by rewrite keptLines_keepFirst.
  - intros Hne. apply Split_Join; [done|].
    apply Forall_forall. intros x Hx. apply (proj1 (keepFirst_elem _ _)) in Hx.
    by apply cleanedLines_shape in Hx as (_ & ? & _).
  - apply Forall_forall. intros x Hx. apply (proj1 (keepFirst_elem _ _)) in Hx.
    by apply cleanedLines_shape in Hx as (? & _).
  - apply keepFirst_NoDup.
  - intros text. apply keepFirst_elem.
  - apply keepFirst_sublist.
  - done.
  - intros pre x mid y post Heq. by eapply keepFirst_order.
Qed.

(** The theorem at a file with the lines [b], [a], [b]. *)
Lemma normalizer_lines_unique_witness :
  keptLines (lit "b" ++ nl ++ lit "a" ++ nl ++ lit "b") = [lit "b"; lit "a"]
  ∧ ∃ a b, cleanedLines (lit "b" ++ nl ++ lit "a" ++ nl ++ lit "b")
           = a ++ lit "b" :: b ∧ (lit "b" ∉ a) ∧ (lit "a" ∉ a).
Proof.
  split; [by vm_compute|].
  destruct (normalizer_lines_unique (lit "b" ++ nl ++ lit "a" ++ nl ++ lit "b"))
    as (_ & _ & _ & _ & _ & _ & _ & _ & H).
  apply (H [] (lit "b") [] (lit "a") []). by vm_compute.
Defined.

(** ** The two implementations of the normalizer *)

(** C9: on the same file, [dedupeVTT] writes to [txtPath] exactly the
    string that [extractText] returns; when the file cannot be read both
    return the error and nothing is written. *)
Theorem dedupeVTT_writes_extractText {World : Type} (os : OS World)
    (s : State World) (vttPath txtPath : gostring) :
  (∀ content, dedupeVTT_of content = extractText_of content)
  ∧ (∀ content, os_ReadFile os vttPath (world s) = (content, None) →
       ∃ text, (extractText os vttPath s).1 = (text, None)
         ∧ trace (dedupeVTT os vttPath txtPath s).2
           = trace s ++ [EvWriteFile txtPath text])
  ∧ (∀ content e, os_ReadFile os vttPath (world s) = (content, Some e) →
       (extractText os vttPath s).1 = (lit "", Some e)
       ∧ (dedupeVTT os vttPath txtPath s).1 = Some e
       ∧ trace (dedupeVTT os vttPath txtPath s).2 = trace s).
Proof.
  split_and!.
  - intros content. unfold dedupeVTT_of, extractText_of.
    f_equal.
  - intros content Hread. exists (extractText_of content).
    unfold extractText, dedupeVTT, ReadFile, WriteFile, mbind, M_bind, bind,
      mret, M_ret, ret.
    rewrite Hread. cbn.
    destruct (os_WriteFile os txtPath _ (world s)) as [r w]. done.
  - intros content e Hread.
    unfold extractText, dedupeVTT, ReadFile, mbind, M_bind, bind,
      mret, M_ret, ret.
    by rewrite Hread.
Qed.

(** The theorem in an environment where [a.vtt] holds two equal lines. *)
Lemma dedupeVTT_writes_extractText_witness :
  let os := tableOS (λ _, None)
              (λ name, if streq name (lit "a.vtt")
                       then Some (lit "hi" ++ nl ++ lit "hi") else None)
              (λ _, None) in
  ∃ text, (extractText os (lit "a.vtt") startState).1 = (text, None)
    ∧ trace (dedupeVTT os (lit "a.vtt") (lit "a.txt") startState).2
      = [EvWriteFile (lit "a.txt") text].
Proof.
  intros os.
  destruct (dedupeVTT_writes_extractText os startState (lit "a.vtt")
              (lit "a.txt")) as (_ & H & _).
  apply (H (lit "hi" ++ nl ++ lit "hi")). reflexivity.
Defined.

(** ** The round trip of the specification *)

Lemma fold_body_discarded (lines : list gostring) (st : loopState) :
  Forall (λ raw, discardSpec (TrimSpace raw)) lines →
  fold_left extractText_body lines st = st.
Proof.
  induction 1 as [|raw lines Hraw _ IH]; [done|].
  cbn [fold_left]. by rewrite body_discarded.
Qed.

Lemma all_discarded_empty (content : gostring) :
  Forall (λ raw, discardSpec (TrimSpace raw)) (Split content newline) →
  extractText_of content = lit "".
Proof.
  intros H. unfold extractText_of. by rewrite fold_body_discarded.
Qed.

Lemma cue_lines_discarded (line : gostring) :
  line = cueHello ∨ line = cueWorld ∨ line = lit ""
  ∨ (∃ a b, line = a ++ lit "-->" ++ b) →
  discardSpec line.
Proof.
  intros [->|[->|[->|H]]].
  - do 6 right. left. apply isTimestamp_spec. reflexivity.
  - do 6 right. left. apply isTimestamp_spec. reflexivity.
  - by left.
  - do 5 right. by left.
Qed.

(** C4, as the specification states it, fails: the two text lines of the
    example are 27 bytes long and hold a colon and a period, so the
    timestamp heuristic discards them. *)
Lemma round_trip_example_fails :
  extractText_of (cueBlocks cueHello cueWorld) ≠ lit "hello" ++ nl ++ lit "world".
Proof. vm_compute. discriminate. Qed.

(** C4, amended: a file whose lines are only the two text lines of the
    example, cue-timing lines and empty lines normalizes to the empty
    string; the three cue blocks give [hello] and [world], each once,
    when the text lines carry the tags without the inline timestamp. *)
Theorem round_trip_amended :
  (∀ content,
     Forall (λ raw, TrimSpace raw = cueHello ∨ TrimSpace raw = cueWorld
                    ∨ TrimSpace raw = lit ""
                    ∨ (∃ a b, TrimSpace raw = a ++ lit "-->" ++ b))
       (Split content newline) →
     extractText_of content = lit "")
  ∧ extractText_of (cueBlocks cueHello cueWorld) = lit ""
  ∧ extractText_of (cueBlocks (lit "<c> hello</c>") (lit "<c> world</c>"))
    = lit "hello" ++ nl ++ lit "world".
Proof.
  split_and!; [|by vm_compute..].
  intros content H. apply all_discarded_empty.
  eapply Forall_impl; [exact H|]. intros raw. apply cue_lines_discarded.
Qed.

(** The first part of the theorem at the three cue blocks of the example. *)
Lemma round_trip_amended_witness :
  extractText_of (cueBlocks cueHello cueWorld) = lit "".
Proof.
  apply (proj1 round_trip_amended).
  vm_compute Split.
  repeat (constructor;
    [first [ left; reflexivity
           | right; left; reflexivity
           | right; right; left; reflexivity
           | right; right; right; apply Contains_infix; reflexivity ] |]).
  constructor.
Defined.

(** ** Idempotence *)

Lemma filter_all (P : gostring → Prop) `{∀ x, Decision (P x)}
    (l : list gostring) :
  Forall P l → filter P l = l.
Proof.
  induction 1 as [|x l Hx _ IH]; [done|].
  rewrite filter_cons_True by done. by f_equal.
Qed.

Lemma keepFirst_NoDup_id (l : list gostring) : NoDup l → keepFirst l = l.
Proof.
  induction 1 as [|x l Hx _ IH]; [done|].
  cbn [keepFirst]. rewrite IH. f_equal. apply filter_all.
  apply Forall_forall. intros y Hy ->. done.
Qed.

Lemma cleanLine_normal (line : gostring) :
  normalLine line → cleanLine line = Some line.
Proof.
  intros (Hne & Htrim & _ & Hlt & Hgt & Hskip). unfold cleanLine.
  rewrite Htrim, Hskip, stripTags_plain, Htrim by done.
  by apply streq_false in Hne as ->.
Qed.

Lemma omap_cleanLine_normal (lines : list gostring) :
  Forall normalLine lines → omap cleanLine lines = lines.
Proof.
  induction 1 as [|x l Hx _ IH]; [done|].
  cbn. rewrite cleanLine_normal by done. by f_equal.
Qed.

Lemma normalized_fixpoint (lines : list gostring) :
  NoDup lines → Forall normalLine lines →
  extractText_of (Join lines nl) = Join lines nl.
Proof.
  intros Hnd Hall.
  assert (Hkept : keptLines (Join lines nl) = lines); [|by unfold extractText_of; fold (keptLines (Join lines nl)); rewrite Hkept].
  destruct (decide (lines = [])) as [->|Hne]; [by vm_compute|].
  rewrite keptLines_keepFirst. unfold cleanedLines.
  rewrite Split_Join; [|done|].
  - rewrite omap_cleanLine_normal by done. by apply keepFirst_NoDup_id.
  - eapply Forall_impl; [exact Hall|]. by intros x (_ & _ & ? & _).
Qed.

(** C5, as stated, fails: the text that the normalizer produces can
    hold a line that the filter discards on the second pass. *)
Lemma idempotence_fails :
  extractText_of cueClock = lit "it is 4:30, right?"
  ∧ extractText_of (extractText_of cueClock) = lit ""
  ∧ extractText_of (extractText_of cueClock) ≠ extractText_of cueClock.
Proof. split_and!; [by vm_compute .. | vm_compute; discriminate]. Qed.

(** C5, amended: a transcript in normal form (distinct lines, each
    non-empty, trimmed, without tag delimiters and not matched by the header
    and timing filter) is returned unchanged; and the text produced for
    any input is returned unchanged by a second pass provided none of its
    lines is matched by the header and timing filter. *)
Theorem normalizer_idempotent_amended :
  (∀ lines, NoDup lines → Forall normalLine lines →
     extractText_of (Join lines nl) = Join lines nl)
  ∧ (∀ content,
       Forall (λ line, skipLine line = false) (keptLines content) →
       extractText_of (extractText_of content) = extractText_of content).
Proof.
  split; [exact normalized_fixpoint|].
  intros content Hskip.
  assert (Hout : extractText_of content = Join (keptLines content) nl) by done.
  rewrite Hout. apply normalized_fixpoint.
  - rewrite keptLines_keepFirst. apply keepFirst_NoDup.
  - rewrite Forall_forall in Hskip |- *. intros x Hx.
    specialize (Hskip x Hx). rewrite keptLines_keepFirst in Hx.
    apply keepFirst_elem, cleanedLines_shape in Hx.
    unfold normalLine. naive_solver.
Qed.

(** The second part of the theorem at a file with two tagged cues. *)
Lemma normalizer_idempotent_amended_witness :
  extractText_of (extractText_of
      (cueBlocks (lit "<c> hello</c>") (lit "<c> world</c>")))
  = extractText_of (cueBlocks (lit "<c> hello</c>") (lit "<c> world</c>")).
Proof.
  apply (proj2 normalizer_idempotent_amended).
  vm_compute. repeat constructor.
Defined.

(** ** The directory of the caption files *)

Lemma LastIndex_absent (s : gostring) (c : rune) :
  c ∉ s → LastIndex s [c] = -1.
Proof.
  induction s as [|r s IH]; [done|].
  intros [Hr Hs]%not_elem_of_cons. cbn [LastIndex HasPrefix].
  rewrite IH by done. cbn.
  destruct (N.eqb_spec r c); [congruence | done].
Qed.

Lemma LastIndex_last (dir file : gostring) (c : rune) :
  c ∉ file → LastIndex (dir ++ c :: file) [c] = len dir.
Proof.
  intros Hfile. induction dir as [|r dir IH].
  - cbn [app LastIndex HasPrefix len]. rewrite LastIndex_absent by done.
    cbn. by rewrite N.eqb_refl.
  - cbn [app LastIndex len]. rewrite IH.
    pose proof (len_nonneg dir).
    destruct (Z.leb_spec 0 (len dir)); [done | lia].
Qed.

Lemma sliceTo_len (dir rest : gostring) : sliceTo (dir ++ rest) (len dir) = dir.
Proof.
  induction dir as [|r dir IH].
  - destruct rest as [|x rest]; [done|]. cbn.
    pose proof (RuneLen_pos x). by destruct (Z.ltb_spec 0 (RuneLen x)); [|lia].
  - cbn [app sliceTo len]. pose proof (len_nonneg dir).
    destruct (Z.ltb_spec (RuneLen r + len dir) (RuneLen r)); [lia|].
    replace (RuneLen r + len dir - RuneLen r) with (len dir) by lia.
    by rewrite IH.
Qed.

Lemma len_zero (s : gostring) : len s = 0 → s = [].
Proof.
  destruct s as [|r s]; [done|]. cbn.
  pose proof (RuneLen_pos r). pose proof (len_nonneg s). lia.
Qed.

Section SubsTrace.
Context {World : Type} (os : OS World) (cfg : Config).

Lemma dedupeVTT_trace (vttPath txtPath : gostring) (s : State World) :
  ∃ rest, trace (dedupeVTT os vttPath txtPath s).2 = trace s ++ rest.
Proof.
  unfold dedupeVTT, ReadFile, WriteFile. munfold.
  destruct (os_ReadFile os vttPath (world s)) as [content [e|]].
  - exists []. by rewrite app_nil_r.
  - destruct (os_WriteFile os txtPath _ (world s)) as [r w]. by eexists.
Qed.

Lemma Multi_processEntries_trace (dir : gostring) (entries : list gostring)
    (s : State World) :
  ∃ rest, trace (Multi.processEntries os dir entries s).2 = trace s ++ rest.
Proof.
  revert s. induction entries as [|name rest IH]; intros s.
  - exists []. by rewrite app_nil_r.
  - cbn [Multi.processEntries]. destruct (HasSuffix name _); [|apply IH].
    munfold.
    destruct (dedupeVTT_trace (dir ++ lit "/" ++ name)
      (dir ++ lit "/" ++ TrimSuffix name (lit ".vtt") ++ lit ".txt") s)
      as [r1 Hd].
    destruct (dedupeVTT os _ _ s) as [[e|] s1]; cbn [snd] in Hd.
    + destruct (IH s1) as [r2 ->]. rewrite Hd, <- app_assoc. by eexists.
    + unfold Remove. destruct (IH (emit (EvRemove (dir ++ lit "/" ++ name)) s1
        (os_Remove os (dir ++ lit "/" ++ name) (world s1)))) as [r2 ->].
      cbn [emit trace]. rewrite Hd, <- !app_assoc. by eexists.
Qed.

Lemma Multi_doDownloadSubs_trace (url : gostring) (s : State World) (w : World) :
  os_Run os (Multi.subsCmd cfg url) (world s) = (None, w) →
  ∃ rest, trace (Multi.doDownloadSubs os cfg url s).2
          = trace s ++ EvRun (Multi.subsCmd cfg url)
                    :: EvReadDir (Multi.searchDir cfg) :: rest.
Proof.
  intros Hrun. unfold Multi.doDownloadSubs, Run. munfold. rewrite Hrun.
  unfold Multi.processSubtitles, ReadDir. munfold. cbn [emit world trace].
  destruct (os_ReadDir os _ w) as [entries [e|]].
  - exists []. cbn. by rewrite <- app_assoc.
  - match goal with
    | |- context [Multi.processEntries os ?d entries ?st] =>
        destruct (Multi_processEntries_trace d entries st) as [rest Hp];
        destruct (Multi.processEntries os d entries st) as [[] s2]
    end.
    cbn [snd] in Hp |- *. rewrite Hp. unfold emit. cbn [trace].
    rewrite <- !app_assoc. by eexists.
Qed.

End SubsTrace.

(** C8, as stated, fails in the multi-select variant for a stem whose only
    separator is its first character: the directory before the separator
    is the empty string, and the search directory is [.]. *)
Lemma searchDir_leading_separator :
  ¬ (∀ cfg dir file,
       customOutPath cfg = dir ++ lit "/" ++ file → chr "/" ∉ file →
       Multi.searchDir cfg = dir).
Proof.
  intros H.
  specialize (H (MkConfig (lit "") (lit "/video")) (lit "") (lit "video")).
  discriminate H; [reflexivity|].
  vm_compute. intros Hin.
  repeat (apply elem_of_cons in Hin as [Hin|Hin]; [discriminate|]).
  by apply elem_of_nil in Hin.
Qed.

(** C8, amended (multi-select variant): when the custom stem holds a
    separator and the part before the last separator is not empty, that
    part is the search directory; without a custom stem, without a
    separator in it, or when the only separator is the first character,
    the search directory is the configured output directory, and [.]
    when none is configured.  It is the directory that [doDownloadSubs]
    reads once the fetch has succeeded. *)
Theorem searchDir_amended (cfg : Config) :
  let configured :=
    if streq (outputDir cfg) (lit "") then lit "." else outputDir cfg in
  (∀ dir file,
     customOutPath cfg = dir ++ lit "/" ++ file → chr "/" ∉ file →
     dir ≠ lit "" → Multi.searchDir cfg = dir)
  ∧ (customOutPath cfg = lit "" → Multi.searchDir cfg = configured)
  ∧ (chr "/" ∉ customOutPath cfg → Multi.searchDir cfg = configured)
  ∧ (∀ file, customOutPath cfg = lit "/" ++ file → chr "/" ∉ file →
       Multi.searchDir cfg = configured)
  ∧ (∀ (World : Type) (os : OS World) url (s : State World) w,
       os_Run os (Multi.subsCmd cfg url) (world s) = (None, w) →
       ∃ rest, trace (Multi.doDownloadSubs os cfg url s).2
               = trace s ++ EvRun (Multi.subsCmd cfg url)
                         :: EvReadDir (Multi.searchDir cfg) :: rest).
Proof.
  intros configured. subst configured.
  split_and!; [..| intros World os url s w; apply Multi_doDownloadSubs_trace];
    unfold Multi.searchDir; change (lit "/") with [chr "/"].
  - intros dir file Hc Hfile Hdir. rewrite Hc.
    cbn [app]. rewrite LastIndex_last by done.
    assert (0 < len dir).
    { pose proof (len_nonneg dir).
      destruct (decide (len dir = 0)) as [H0%len_zero|]; [done | lia]. }
    destruct (streq (dir ++ chr "/" :: file) (lit "")) eqn:E.
    { apply streq_true in E. by destruct dir. }
    cbn [negb]. destruct (Z.ltb_spec 0 (len dir)); [|lia].
    apply sliceTo_len.
  - intros ->. cbn. by destruct (streq (outputDir cfg) (lit "")).
  - intros Hno. rewrite LastIndex_absent by done. cbn.
    by destruct (streq (outputDir cfg) (lit "")), (streq (customOutPath cfg) (lit "")).
  - intros file -> Hfile. cbn [app].
    pose proof (LastIndex_last [] file (chr "/") Hfile) as HL.
    cbn [app len] in HL. rewrite HL. cbn.
    by destruct (streq (outputDir cfg) (lit "")).
Qed.

(** The theorem at the stem [out/clips/video]. *)
Lemma searchDir_amended_witness :
  Multi.searchDir (MkConfig (lit "") (lit "out/clips/video")) = lit "out/clips".
Proof.
  apply (proj1 (searchDir_amended (MkConfig (lit "") (lit "out/clips/video")))
           (lit "out/clips") (lit "video")); [reflexivity | | discriminate].
  vm_compute. intros Hin.
  repeat (apply elem_of_cons in Hin as [Hin|Hin]; [discriminate|]).
  by apply elem_of_nil in Hin.
Defined.

(** In the single-select variant the custom stem plays no part. *)
Lemma Single_searchDir_ignores_stem (cfg : Config) :
  Single.searchDir cfg
  = if streq (outputDir cfg) (lit "") then lit "." else outputDir cfg.
Proof. unfold Single.searchDir. by destruct (streq _ _). Qed.

(** ** The orchestration *)

Lemma execs_app (t1 t2 : list Event) : execs (t1 ++ t2) = execs t1 ++ execs t2.
Proof. unfold execs. apply omap_app. Qed.

Lemma runInOrder_execs {World : Type}
    (actions : list (M World (option error))) (cmds : list Cmd) :
  Forall2 runsOnly actions cmds →
  ∀ s, ∃ ran,
    execs (trace (runInOrder actions s).2) = execs (trace s) ++ ran
    ∧ ran `prefix_of` cmds
    ∧ ((runInOrder actions s).1 = None → ran = cmds)
    ∧ (∀ e, (runInOrder actions s).1 = Some e → ran ≠ []).
Proof.
  induction 1 as [|a c actions cmds Ha _ IH]; intros s.
  - exists []. cbn. rewrite app_nil_r. by split_and!.
  - cbn [runInOrder]. munfold. specialize (Ha s).
    destruct (a s) as [[e|] s1] eqn:Ea; cbn [snd] in Ha.
    + exists [c]. cbn. split_and!; [done | | done | done].
      by apply prefix_cons, prefix_nil.
    + destruct (IH s1) as (ran & Hran & Hpre & Hall & Hsome).
      exists (c :: ran). rewrite Hran, Ha, <- app_assoc. split_and!.
      * done.
      * by apply prefix_cons.
      * intros Hn. by rewrite Hall.
      * done.
Qed.

Section MultiFacts.
Context {World : Type} (os : OS World) (cfg : Config).
Import Multi.

Lemma Update_tick (m : downloadModel) : (Update m TickMsg).1 = m.
Proof. done. Qed.

Lemma Update_key (m : downloadModel) (key : gostring) :
  (Update m (KeyMsg key)).1 = m
  ∧ ∀ mc, (Update m (KeyMsg key)).2 ≠ cmdRunCurrentStep mc.
Proof. unfold Update. by destruct (streq key _). Qed.

Lemma runCurrentStep_action (m : downloadModel) (i : nat) (name : gostring)
    (s : State World) :
  step m = Z.of_nat i → steps m !! i = Some name →
  runCurrentStep os cfg m s
  = (e ← stepAction os cfg (url m) name; mret (downloadDoneMsg e)) s.
Proof.
  intros Hstep Hname. unfold runCurrentStep, stepAction.
  apply lookup_lt_Some in Hname as Hlt. rewrite Hstep, Nat2Z.id, Hname.
  destruct (Z.leb_spec (Z.of_nat (length (steps m))) (Z.of_nat i)); [lia|].
  by repeat case_match.
Qed.

Lemma deliver_cases (m : downloadModel) (evs : list External) :
  deliver m evs = inl m
  ∨ deliver m evs = inr (m, None)
  ∨ ∃ e, deliver m evs = inr (m, Some e) ∧ extFail e ∈ evs.
Proof.
  induction evs as [|ev evs IH]; [by left|].
  assert (Hrest : deliver m evs = inl m
    ∨ deliver m evs = inr (m, None)
    ∨ ∃ e, deliver m evs = inr (m, Some e) ∧ extFail e ∈ ev :: evs).
  { destruct IH as [?|[?|(e & ? & ?)]]; [by left | by right; left |].
    right. right. exists e. split; [done | by apply list_elem_of_further]. }
  destruct ev as [key| | |e]; cbn [deliver Update].
  - destruct (streq key (lit "ctrl+c")); [by right; left | done].
  - done.
  - done.
  - right. right. exists e. split; [done | apply list_elem_of_here].
Qed.

Lemma deliver_uninterrupted (sched : Schedule) (turn : nat)
    (m : downloadModel) :
  uninterrupted sched → deliver m (sched turn) = inl m.
Proof.
  intros Hq. specialize (Hq turn).
  induction Hq as [|ev evs Hev _ IH]; [done|].
  destruct ev as [key| | |e]; cbn [deliver Update]; [|done..].
  by apply streq_false in Hev as ->.
Qed.

(** The loop from a step on: the state it leaves is that of running some
    of the remaining steps, in order and up to the first error; an error
    in the model is the error of the step that failed; a run without
    interruption is the run of all remaining steps. *)
Lemma teaLoop_steps (sched : Schedule) (fuel : nat) (m : downloadModel)
    (i turn : nat) (s : State World) :
  step m = Z.of_nat i → err m = None →
  (length (steps m) - i < fuel)%nat →
  let acts := map (stepAction os cfg (url m)) (drop i (steps m)) in
  ∃ k m' r,
    teaLoop os cfg fuel sched turn m (runCurrentStep os cfg m) s
    = (Some (m', r), (runInOrder (take k acts) s).2)
    ∧ (∀ e, err m' = Some e → (runInOrder (take k acts) s).1 = Some e)
    ∧ (∀ e, r = Some e → ∃ t, extFail e ∈ sched t)
    ∧ (uninterrupted sched →
       r = None ∧ runInOrder (take k acts) s = runInOrder acts s
       ∧ err m' = (runInOrder acts s).1).
Proof.
  revert m i turn s.
  induction fuel as [|fuel IH]; intros m i turn s Hstep Herr Hfuel acts; [lia|].
  cbn [teaLoop]. munfold.
  destruct (decide (i < length (steps m))%nat) as [Hlt|Hge].
  - destruct (lookup_lt_is_Some_2 (steps m) i Hlt) as [name Hname].
    subst acts. rewrite (drop_S _ _ _ Hname). cbn [map].
    set (a := stepAction os cfg (url m) name).
    set (rest := map (stepAction os cfg (url m)) (drop (S i) (steps m))).
    rewrite (runCurrentStep_action m i name s Hstep Hname). munfold. fold a.
    destruct (a s) as [e s1] eqn:Ha.
    assert (Hone : (runInOrder (take 1 (a :: rest)) s).2 = s1).
    { cbn [take runInOrder]. munfold. rewrite Ha. by destruct e. }
    destruct (deliver_cases m (sched turn)) as [Hd|[Hd|(e' & Hd & Hin)]].
    + rewrite Hd. cbn [Update]. destruct e as [e|].
      * exists 1%nat. eexists _, _. split_and!.
        -- rewrite Hone. reflexivity.
        -- cbn [err]. intros e0 [= <-]. cbn [take runInOrder]. munfold.
           by rewrite Ha.
        -- done.
        -- intros _. split_and!; [done | |].
           ++ cbn [take runInOrder]. munfold. by rewrite Ha.
           ++ cbn [err runInOrder]. munfold. by rewrite Ha.
      * cbn [step steps url err done opts]. rewrite Hstep.
        destruct (Z.ltb_spec (Z.of_nat i + 1) (Z.of_nat (length (steps m))))
          as [Hnext|Hlast].
        -- pose (m1 := MkDownloadModel (done m) (err m) (url m) (opts m)
                         (steps m) (Z.of_nat i + 1)).
           destruct (IH m1 (S i) (S turn) s1) as (k & m' & r & Hrun & He & Hr & Hq);
             [cbn; lia | done | cbn; lia |].
           cbn [url steps] in Hrun, He, Hq. fold rest in Hrun, He, Hq.
           assert (Hk : ∀ l, runInOrder (a :: l) s = runInOrder l s1).
           { intros l. cbn [runInOrder]. munfold. by rewrite Ha. }
           exists (S k), m', r. cbn [take]. rewrite !Hk. split_and!; try done.
        -- assert (Hnil : rest = []).
           { subst rest. by rewrite drop_ge by lia. }
           exists 1%nat. eexists _, _. split_and!.
           ++ rewrite Hone. reflexivity.
           ++ cbn [err]. by rewrite Herr.
           ++ done.
           ++ intros _. rewrite Hnil. cbn [take runInOrder err]. munfold.
              rewrite Ha, Herr. done.
    + rewrite Hd. exists 1%nat, m, None. split_and!.
      * by rewrite Hone.
      * by rewrite Herr.
      * done.
      * intros Hq. rewrite (deliver_uninterrupted sched turn m Hq) in Hd.
        discriminate Hd.
    + rewrite Hd. exists 1%nat, m, (Some e'). split_and!.
      * by rewrite Hone.
      * by rewrite Herr.
      * intros e0 [= <-]. by exists turn.
      * intros Hq. rewrite (deliver_uninterrupted sched turn m Hq) in Hd.
        discriminate Hd.
  - subst acts. rewrite drop_ge by lia. cbn [map take runInOrder].
    unfold runCurrentStep. rewrite Hstep.
    destruct (Z.leb_spec (Z.of_nat (length (steps m))) (Z.of_nat i)); [|lia].
    munfold.
    destruct (deliver_cases m (sched turn)) as [Hd|[Hd|(e' & Hd & Hin)]];
      rewrite Hd.
    + cbn [Update]. cbn [step steps url err done opts]. rewrite Hstep.
      destruct (Z.ltb_spec (Z.of_nat i + 1) (Z.of_nat (length (steps m))));
        [lia|].
      exists 0%nat. eexists _, _. cbn [take runInOrder]. munfold.
      split_and!; [reflexivity | | done |].
      * cbn [err]. by rewrite Herr.
      * intros _. cbn [err]. by rewrite Herr.
    + exists 0%nat, m, None. cbn [take runInOrder]. munfold.
      split_and!; [done | by rewrite Herr | done |].
      intros Hq. rewrite (deliver_uninterrupted sched turn m Hq) in Hd.
      discriminate Hd.
    + exists 0%nat, m, (Some e'). cbn [take runInOrder]. munfold.
      split_and!; [done | by rewrite Herr | |].
      * intros e0 [= <-]. by exists turn.
      * intros Hq. rewrite (deliver_uninterrupted sched turn m Hq) in Hd.
        discriminate Hd.
Qed.

(** [runWithSpinner] always has a result.  The state it leaves is that of
    running some of the steps, in order and up to the first error; the
    error it returns is that of the step that failed or that of the
    runtime; without interruption it runs all the steps up to the first
    error and returns that error. *)
Lemma runWithSpinner_steps (sched : Schedule) (url : gostring)
    (opts : DownloadOptions) (s : State World) :
  let acts := map (stepAction os cfg url)
                (steps (initialDownloadModel url opts)) in
  ∃ k r,
    runWithSpinner os cfg sched url opts s
    = (Some r, (runInOrder (take k acts) s).2)
    ∧ (∀ e, r = Some e →
         (runInOrder (take k acts) s).1 = Some e ∨ ∃ t, extFail e ∈ sched t)
    ∧ (uninterrupted sched →
       runWithSpinner os cfg sched url opts s
       = (Some (runInOrder acts s).1, (runInOrder acts s).2)).
Proof.
  intros acts. unfold runWithSpinner.
  set (m0 := initialDownloadModel url opts).
  remember (S (length (steps m0))) as fuel eqn:Hfuel.
  munfold. cbn [teaLoop]. munfold.
  destruct (deliver_cases m0 (sched 0%nat)) as [Hd|[Hd|(e' & Hd & Hin)]];
    rewrite Hd.
  - cbn [Update].
    destruct (teaLoop_steps sched fuel m0 0 1 s)
      as (k & m' & r & Hrun & He & Hr & Hq); [done | done | lia |].
    rewrite drop_0 in Hrun, He, Hq.
    change (Multi.url m0) with url in Hrun, He, Hq. fold acts in Hrun, He, Hq.
    rewrite Hrun. exists k. destruct r as [e|].
    + exists (Some e). split_and!; [done | |].
      * intros e0 [= <-]. right. by apply Hr.
      * intros Hqu. by destruct (Hq Hqu) as [? _].
    + exists (err m'). split_and!; [done | |].
      * intros e0 He0. left. by apply He.
      * intros Hqu. destruct (Hq Hqu) as (_ & Heq & Herr).
        by rewrite Heq, Herr.
  - exists 0%nat, None. cbn [take runInOrder]. munfold.
    split_and!; [done | done |].
    intros Hq. rewrite (deliver_uninterrupted sched 0 m0 Hq) in Hd.
    discriminate Hd.
  - exists 0%nat, (Some e'). cbn [take runInOrder]. munfold.
    split_and!; [done | |].
    + intros e0 [= <-]. right. by exists 0%nat.
    + intros Hq. rewrite (deliver_uninterrupted sched 0 m0 Hq) in Hd.
      discriminate Hd.
Qed.

Lemma runWithSpinner_uninterrupted (sched : Schedule) (url : gostring)
    (opts : DownloadOptions) (s : State World) :
  uninterrupted sched →
  let run := runInOrder (map (stepAction os cfg url)
                           (steps (initialDownloadModel url opts))) s in
  runWithSpinner os cfg sched url opts s = (Some run.1, run.2).
Proof.
  intros Hq run.
  destruct (runWithSpinner_steps sched url opts s) as (k & r & _ & _ & H).
  by apply H.
Qed.

End MultiFacts.

Section Traces.
Context {World : Type} (os : OS World) (cfg : Config).

Lemma Run_runsOnly (c : Cmd) : runsOnly (Run os c) c.
Proof.
  intros s. unfold Run. destruct (os_Run os c (world s)) as [r w].
  cbn. by rewrite execs_app.
Qed.

Lemma dedupeVTT_execs (vttPath txtPath : gostring) (s : State World) :
  execs (trace (dedupeVTT os vttPath txtPath s).2) = execs (trace s).
Proof.
  unfold dedupeVTT, ReadFile, WriteFile. munfold.
  destruct (os_ReadFile os vttPath (world s)) as [content [e|]]; [done|].
  destruct (os_WriteFile os txtPath _ (world s)) as [r w].
  cbn. by rewrite execs_app, app_nil_r.
Qed.

Lemma Multi_processEntries_execs (dir : gostring) (entries : list gostring)
    (s : State World) :
  execs (trace (Multi.processEntries os dir entries s).2) = execs (trace s).
Proof.
  revert s. induction entries as [|name rest IH]; intros s; [done|].
  cbn [Multi.processEntries]. destruct (HasSuffix name _); [|apply IH].
  munfold.
  pose proof (dedupeVTT_execs (dir ++ lit "/" ++ name)
    (dir ++ lit "/" ++ TrimSuffix name (lit ".vtt") ++ lit ".txt") s) as Hd.
  destruct (dedupeVTT os _ _ s) as [[e|] s1]; cbn [snd] in Hd.
  - by rewrite IH.
  - unfold Remove. rewrite IH. cbn. by rewrite execs_app, app_nil_r.
Qed.

Lemma Multi_doDownloadSubs_runsOnly (url : gostring) :
  runsOnly (Multi.doDownloadSubs os cfg url) (Multi.subsCmd cfg url).
Proof.
  intros s. unfold Multi.doDownloadSubs. munfold.
  pose proof (Run_runsOnly (Multi.subsCmd cfg url) s) as Hr.
  destruct (Run os _ s) as [[e|] s1]; cbn [snd] in Hr; [done|].
  unfold Multi.processSubtitles, ReadDir. munfold.
  destruct (os_ReadDir os _ (world s1)) as [entries [e|]].
  - cbn. by rewrite execs_app, app_nil_r.
  - pose proof (Multi_processEntries_execs (Multi.searchDir cfg) entries
      (emit (EvReadDir (Multi.searchDir cfg)) s1 (world s1))) as Hp.
    destruct (Multi.processEntries os _ entries _) as [[] s2].
    cbn [snd] in Hp |- *. rewrite Hp. cbn. by rewrite execs_app, app_nil_r.
Qed.

Lemma Single_processEntries_execs (dir : gostring) (entries : list gostring)
    (s : State World) :
  execs (trace (Single.processEntries os dir entries s).2) = execs (trace s).
Proof.
  revert s. induction entries as [|name rest IH]; intros s; [done|].
  cbn [Single.processEntries]. destruct (HasSuffix name _); [|apply IH].
  munfold.
  pose proof (dedupeVTT_execs (dir ++ lit "/" ++ name)
    (dir ++ lit "/" ++ TrimSuffix name (lit ".vtt") ++ lit ".txt") s) as Hd.
  destruct (dedupeVTT os _ _ s) as [[e|] s1]; cbn [snd] in Hd.
  - by rewrite IH.
  - unfold Remove. rewrite IH. cbn. by rewrite execs_app, app_nil_r.
Qed.

Lemma Single_downloadSubs_runsOnly (url : gostring) :
  runsOnly (Single.downloadSubs os cfg url) (Single.subsCmd cfg url).
Proof.
  intros s. unfold Single.downloadSubs. munfold.
  pose proof (Run_runsOnly (Single.subsCmd cfg url) s) as Hr.
  destruct (Run os _ s) as [[e|] s1]; cbn [snd] in Hr; [done|].
  unfold Single.processSubtitles, ReadDir. munfold.
  destruct (os_ReadDir os _ (world s1)) as [entries [e|]].
  - cbn. by rewrite execs_app, app_nil_r.
  - pose proof (Single_processEntries_execs (Single.searchDir cfg) entries
      (emit (EvReadDir (Single.searchDir cfg)) s1 (world s1))) as Hp.
    destruct (Single.processEntries os _ entries _) as [[] s2].
    cbn [snd] in Hp |- *. rewrite Hp. cbn. by rewrite execs_app, app_nil_r.
Qed.

Lemma wrapStage_runsOnly (prefix : gostring) (a : M World (option error))
    (c : Cmd) :
  runsOnly a c → runsOnly (wrapStage prefix a) c.
Proof.
  intros Ha s. specialize (Ha s). unfold wrapStage. munfold.
  by destruct (a s) as [[e|] s1].
Qed.

Lemma Multi_steps_actions (url : gostring) (opts : Multi.DownloadOptions) :
  Forall2 runsOnly
    (map (Multi.stepAction os cfg url)
       (Multi.steps (Multi.initialDownloadModel url opts)))
    (Multi.plannedCmds cfg url opts).
Proof.
  unfold Multi.plannedCmds, Multi.initialDownloadModel. cbn [Multi.steps].
  destruct (Multi.Video opts), (Multi.Audio opts), (Multi.Subs opts);
    cbn [app map];
    repeat (constructor;
      [first [ apply Run_runsOnly | apply Multi_doDownloadSubs_runsOnly ] |]);
    constructor.
Qed.

Lemma Single_runDownload_all (url : gostring) (s : State World) :
  Single.runDownload os cfg url Single.ModeAll s
  = runInOrder
      [ wrapStage (lit "video download failed: ") (Single.downloadVideo os cfg url);
        wrapStage (lit "audio download failed: ") (Single.downloadAudio os cfg url);
        wrapStage (lit "subtitle download failed: ") (Single.downloadSubs os cfg url) ]
      s.
Proof.
  cbn [Single.runDownload runInOrder]. unfold wrapStage. munfold.
  destruct (Single.downloadVideo os cfg url s) as [[e|] s1]; [done|].
  destruct (Single.downloadAudio os cfg url s1) as [[e|] s2]; [done|].
  by destruct (Single.downloadSubs os cfg url s2) as [[e|] s3].
Qed.

End Traces.

Lemma noEvents_uninterrupted : Multi.uninterrupted Multi.noEvents.
Proof. intros turn. constructor. Qed.

(** The fetch commands of the download program, whatever reaches it from
    outside: they are the first of the planned commands, in their order,
    and all of them when the run is not interrupted and reports no
    error. *)
Lemma runWithSpinner_execs {World : Type} (os : OS World) (cfg : Config)
    (sched : Multi.Schedule) (url : gostring) (opts : Multi.DownloadOptions)
    (s : State World) :
  ∃ r ran,
    (Multi.runWithSpinner os cfg sched url opts s).1 = Some r
    ∧ execs (trace (Multi.runWithSpinner os cfg sched url opts s).2)
      = execs (trace s) ++ ran
    ∧ ran `prefix_of` Multi.plannedCmds cfg url opts
    ∧ (Multi.uninterrupted sched → r = None →
       ran = Multi.plannedCmds cfg url opts).
Proof.
  destruct (runWithSpinner_steps os cfg sched url opts s)
    as (k & r & Hrun & _ & Hq).
  pose proof (Multi_steps_actions os cfg url opts) as Hacts.
  destruct (runInOrder_execs _ _ (Forall2_take _ _ _ k Hacts) s)
    as (ran & Htr & Hpre & _ & _).
  exists r, ran. rewrite Hrun. cbn [fst snd]. split_and!; [done | done | |].
  - etrans; [exact Hpre | apply prefix_take].
  - intros Hu Hr. specialize (Hq Hu). rewrite Hrun in Hq.
    pose proof (f_equal fst Hq) as Hr1. pose proof (f_equal snd Hq) as Hs1.
    cbn [fst snd] in Hr1, Hs1. apply (inj Some) in Hr1.
    destruct (runInOrder_execs _ _ Hacts s) as (ran' & Htr' & _ & Hall & _).
    rewrite Hs1, Htr' in Htr. apply app_inv_head in Htr. subst ran'.
    apply Hall. by rewrite <- Hr1.
Qed.

(** When the video step fails, the download program leaves either the
    state it started in or the state after the video command, whatever
    reaches it from outside. *)
Lemma runWithSpinner_video_fails {World : Type} (os : OS World) (cfg : Config)
    (sched : Multi.Schedule) (url : gostring) (opts : Multi.DownloadOptions)
    (s : State World) (e : error) (w : World) :
  Multi.Video opts = true →
  os_Run os (Multi.videoCmd cfg url) (world s) = (Some e, w) →
  let failed := MkState w (trace s ++ [EvRun (Multi.videoCmd cfg url)]) in
  ((Multi.runWithSpinner os cfg sched url opts s).2 = s
   ∨ (Multi.runWithSpinner os cfg sched url opts s).2 = failed)
  ∧ (Multi.uninterrupted sched →
     Multi.runWithSpinner os cfg sched url opts s = (Some (Some e), failed)).
Proof.
  intros Hvideo Hrun failed.
  assert (Hacts : ∃ rest,
    map (Multi.stepAction os cfg url)
      (Multi.steps (Multi.initialDownloadModel url opts))
    = Multi.doDownloadVideo os cfg url :: rest).
  { unfold Multi.initialDownloadModel. cbn [Multi.steps]. rewrite Hvideo.
    destruct (Multi.Audio opts), (Multi.Subs opts); cbn [app map];
      by eexists. }
  destruct Hacts as [rest Hacts].
  assert (Hfail : ∀ l,
    runInOrder (Multi.doDownloadVideo os cfg url :: l) s = (Some e, failed)).
  { intros l. cbn [runInOrder]. unfold Multi.doDownloadVideo, Run. munfold.
    by rewrite Hrun. }
  destruct (runWithSpinner_steps os cfg sched url opts s)
    as (k & r & Hk & _ & Hq).
  rewrite Hacts in Hk, Hq. split.
  - rewrite Hk. cbn [snd]. destruct k as [|k]; [by left|].
    right. cbn [take]. by rewrite Hfail.
  - intros Hu. rewrite (Hq Hu). by rewrite Hfail.
Qed.

(** C6: the step list holds the requested artifacts in the order video,
    audio, subtitles, whatever the order in which they were selected; the
    fetch commands run in that order.  For the selection of subtitles and
    then video, the list is video, subtitles.  Whatever keys, ticks and
    failures of the runtime reach the download program, the commands it
    runs are the first of the planned ones, in their order; they are all
    of them when the run is not interrupted and reports no error. *)
Theorem steps_fixed_order {World : Type} (os : OS World) (cfg : Config)
    (url : gostring) (s : State World) :
  (∀ opts,
     Multi.steps (Multi.initialDownloadModel url opts)
     = (if Multi.Video opts then [lit "video"] else [])
       ++ (if Multi.Audio opts then [lit "audio"] else [])
       ++ (if Multi.Subs opts then [lit "subs"] else [])
     ∧ Multi.steps (Multi.initialDownloadModel url opts)
       `sublist_of` [lit "video"; lit "audio"; lit "subs"])
  ∧ (∀ claude prompt,
       let subsThenVideo :=
         Multi.toggle claude (Multi.toggle claude Multi.initialChecked 2) 0 in
       let videoThenSubs :=
         Multi.toggle claude (Multi.toggle claude Multi.initialChecked 0) 2 in
       Multi.getOptions subsThenVideo prompt
       = Multi.getOptions videoThenSubs prompt
       ∧ Multi.steps (Multi.initialDownloadModel url
                        (Multi.getOptions subsThenVideo prompt))
         = [lit "video"; lit "subs"])
  ∧ (∀ sched opts, ∃ ran,
       (Multi.runWithSpinner os cfg sched url opts s).1 ≠ None
       ∧ execs (trace (Multi.runWithSpinner os cfg sched url opts s).2)
         = execs (trace s) ++ ran
       ∧ ran `prefix_of` Multi.plannedCmds cfg url opts
       ∧ (Multi.uninterrupted sched →
          (Multi.runWithSpinner os cfg sched url opts s).1 = Some None →
          ran = Multi.plannedCmds cfg url opts))
  ∧ (∃ ran,
       execs (trace (Single.runDownload os cfg url Single.ModeAll s).2)
       = execs (trace s) ++ ran
       ∧ ran `prefix_of` [Single.videoCmd cfg url; Single.audioCmd cfg url;
                          Single.subsCmd cfg url]
       ∧ ((Single.runDownload os cfg url Single.ModeAll s).1 = None →
          ran = [Single.videoCmd cfg url; Single.audioCmd cfg url;
                 Single.subsCmd cfg url])).
Proof.
  split_and!.
  - intros opts. unfold Multi.initialDownloadModel. cbn [Multi.steps].
    destruct (Multi.Video opts), (Multi.Audio opts), (Multi.Subs opts);
      (split; [reflexivity|]); cbn [app];
      repeat first [ apply sublist_nil | apply sublist_skip | apply sublist_cons ].
  - intros claude prompt. by destruct claude.
  - intros sched opts.
    destruct (runWithSpinner_execs os cfg sched url opts s)
      as (r & ran & Hr & Htr & Hpre & Hall).
    exists ran. rewrite Hr. split_and!; [done | done | done |].
    intros Hu [= Hnone]. by apply Hall.
  - rewrite Single_runDownload_all.
    edestruct (runInOrder_execs (World := World)) as (ran & Htr & Hpre & Hall & _);
      [|exists ran; split_and!; [exact Htr | exact Hpre | exact Hall]].
    repeat (constructor; [apply wrapStage_runsOnly;
      first [ apply Run_runsOnly | apply Single_downloadSubs_runsOnly ] |]).
    constructor.
Qed.

(** The theorem for the request of subtitles and video, in an environment
    where every command succeeds and nothing reaches the program from
    outside. *)
Lemma steps_fixed_order_witness :
  let os := tableOS (λ _, None) (λ _, None) (λ _, Some []) in
  let cfg := MkConfig (lit "") (lit "") in
  let url := lit "https://example.org/watch" in
  let opts := Multi.getOptions
                (Multi.toggle true (Multi.toggle true Multi.initialChecked 2) 0)
                Multi.defaultPrompt in
  execs (trace (Multi.runWithSpinner os cfg Multi.noEvents url opts startState).2)
  = [Multi.videoCmd cfg url; Multi.subsCmd cfg url].
Proof.
  intros os cfg url opts.
  destruct (steps_fixed_order os cfg url startState) as (_ & _ & H & _).
  destruct (H Multi.noEvents opts) as (ran & _ & Htr & _ & Hall).
  rewrite Htr, Hall; [reflexivity | intros turn; constructor | by vm_compute].
Defined.

(** C7, as stated, fails in the multi-select variant: when the video
    step fails in a run that nothing interrupts, the error that
    [runDownload] reports is the error of the fetch command itself, and
    its message does not name the stage. *)
Lemma multi_error_not_wrapped :
  let os := tableOS (λ _, Some exitStatus1) (λ _, None) (λ _, Some []) in
  let cfg := MkConfig (lit "") (lit "") in
  let url := lit "https://example.org/watch" in
  let opts := Multi.MkOptions true true true false (lit "") in
  Multi.uninterrupted Multi.noEvents
  ∧ Multi.runDownload os cfg Multi.noEvents url opts startState
    = (Some (Some exitStatus1), MkState tt [EvRun (Multi.videoCmd cfg url)])
  ∧ Error exitStatus1 = lit "exit status 1"
  ∧ namesStage exitStatus1 (lit "video") = false.
Proof. split; [intros turn; constructor | by vm_compute]. Qed.

(** C7, amended: in both variants the steps run in order up to the first
    one that fails, and no later step runs.  In the multi-select variant
    this holds whatever keys, ticks and failures of the runtime reach the
    download program: the state it leaves is that of the first steps, run
    in order up to the first error, and an error it returns is that of
    the failing step or that of the runtime; when the video step fails,
    nothing but the video command has run.  When the run is not
    interrupted, the multi-select variant reports the error of the failing
    step as it is.  The mode for all artifacts of the single-select
    variant wraps it with the name of the stage. *)
Theorem failure_stops_run {World : Type} (os : OS World) (cfg : Config)
    (url : gostring) (s : State World) :
  (∀ sched opts,
     let acts := map (Multi.stepAction os cfg url)
                   (Multi.steps (Multi.initialDownloadModel url opts)) in
     (∃ k r,
        Multi.runWithSpinner os cfg sched url opts s
        = (Some r, (runInOrder (take k acts) s).2)
        ∧ (∀ e, r = Some e →
             (runInOrder (take k acts) s).1 = Some e
             ∨ ∃ turn, Multi.extFail e ∈ sched turn))
     ∧ (Multi.uninterrupted sched →
        Multi.runWithSpinner os cfg sched url opts s
        = (Some (runInOrder acts s).1, (runInOrder acts s).2)))
  ∧ (∀ sched opts e w,
       Multi.Video opts = true →
       os_Run os (Multi.videoCmd cfg url) (world s) = (Some e, w) →
       let failed := MkState w (trace s ++ [EvRun (Multi.videoCmd cfg url)]) in
       ((Multi.runWithSpinner os cfg sched url opts s).2 = s
        ∨ (Multi.runWithSpinner os cfg sched url opts s).2 = failed)
       ∧ (Multi.uninterrupted sched →
          Multi.runWithSpinner os cfg sched url opts s = (Some (Some e), failed)
          ∧ Multi.runDownload os cfg sched url opts s = (Some (Some e), failed)))
  ∧ Single.runDownload os cfg url Single.ModeAll s
    = runInOrder
        [ wrapStage (lit "video download failed: ") (Single.downloadVideo os cfg url);
          wrapStage (lit "audio download failed: ") (Single.downloadAudio os cfg url);
          wrapStage (lit "subtitle download failed: ") (Single.downloadSubs os cfg url) ]
        s
  ∧ (∀ e w,
       os_Run os (Single.videoCmd cfg url) (world s) = (Some e, w) →
       Single.runDownload os cfg url Single.ModeAll s
       = (Some (wrapError (lit "video download failed: ") e),
          MkState w (trace s ++ [EvRun (Single.videoCmd cfg url)]))
       ∧ namesStage (wrapError (lit "video download failed: ") e) (lit "video")
         = true).
Proof.
  split_and!.
  - intros sched opts acts.
    destruct (runWithSpinner_steps os cfg sched url opts s)
      as (k & r & Hrun & He & Hq).
    split; [by exists k, r | exact Hq].
  - intros sched opts e w Hvideo Hrun failed.
    destruct (runWithSpinner_video_fails os cfg sched url opts s e w Hvideo Hrun)
      as [Hst Hq].
    split; [exact Hst|]. intros Hu. specialize (Hq Hu). split; [exact Hq|].
    unfold Multi.runDownload. munfold. rewrite Hvideo. cbn [orb].
    by rewrite Hq.
  - apply Single_runDownload_all.
  - intros e w Hrun. split.
    + cbn [Single.runDownload]. unfold Single.downloadVideo, Run. munfold.
      by rewrite Hrun.
    + unfold namesStage. apply Contains_infix.
      exists [], (lit " download failed: " ++ Error e). reflexivity.
Qed.

(** The theorem in an environment where every command fails and nothing
    reaches the program from outside. *)
Lemma failure_stops_run_witness :
  let os := tableOS (λ _, Some exitStatus1) (λ _, None) (λ _, Some []) in
  let cfg := MkConfig (lit "") (lit "") in
  let url := lit "https://example.org/watch" in
  Single.runDownload os cfg url Single.ModeAll startState
  = (Some (wrapError (lit "video download failed: ") exitStatus1),
     MkState tt [EvRun (Single.videoCmd cfg url)])
  ∧ Multi.runWithSpinner os cfg Multi.noEvents url
      (Multi.MkOptions true true true false (lit "")) startState
    = (Some (Some exitStatus1), MkState tt [EvRun (Multi.videoCmd cfg url)]).
Proof.
  intros os cfg url.
  destruct (failure_stops_run os cfg url startState) as (_ & Hm & _ & Hs).
  split.
  - apply (Hs exitStatus1 tt). reflexivity.
  - apply (Hm Multi.noEvents _ exitStatus1 tt);
      [reflexivity | reflexivity | intros turn; constructor].
Defined.

(** ** Further properties of the normalizer *)

Lemma cleanLine_None (raw : gostring) :
  cleanLine raw = None ↔ discardSpec (TrimSpace raw).
Proof.
  split.
  - intros Hnone. rewrite discardSpec_skip. unfold cleanLine in Hnone.
    destruct (skipLine _); [by left|].
    destruct (streq _ _); [by right | done].
  - intros [H|H]%discardSpec_skip; unfold cleanLine.
    + by rewrite H.
    + destruct (skipLine _); [done|]. by rewrite H.
Qed.

Lemma omap_nil_Forall (lines : list gostring) :
  omap cleanLine lines = [] ↔ Forall (λ raw, cleanLine raw = None) lines.
Proof.
  induction lines as [|raw lines IH]; cbn; [by split; [constructor|]|].
  destruct (cleanLine raw) as [text|] eqn:E.
  - split; [done|]. intros H. inversion H; congruence.
  - rewrite IH. split; [by constructor|]. by intros H; inversion H.
Qed.

Lemma Join_nil_iff (lines : list gostring) :
  Forall (λ l, l ≠ lit "") lines → Join lines nl = lit "" ↔ lines = [].
Proof.
  intros Hall. split; [|by intros ->].
  destruct lines as [|x lines]; [done|].
  inversion Hall as [|? ? Hx _]; subst.
  destruct lines; cbn; [done|]. by destruct x.
Qed.

Lemma keepFirst_nil (l : list gostring) : keepFirst l = [] ↔ l = [].
Proof. by destruct l. Qed.

Lemma keptLines_shape (content text : gostring) :
  text ∈ keptLines content →
  text ≠ lit "" ∧ (newline ∉ text) ∧ (chr "<" ∉ text) ∧ (chr ">" ∉ text)
  ∧ TrimSpace text = text.
Proof.
  rewrite keptLines_keepFirst. intros Hx.
  apply (proj1 (keepFirst_elem _ _)) in Hx. by apply cleanedLines_shape in Hx.
Qed.

(** X1: the transcript is the empty string exactly when the filter
    discards every line of the file; an empty file is such a file. *)
Theorem extractText_empty_iff (content : gostring) :
  (extractText_of content = lit ""
   ↔ Forall (λ raw, discardSpec (TrimSpace raw)) (Split content newline))
  ∧ (dedupeVTT_of content = lit ""
     ↔ Forall (λ raw, discardSpec (TrimSpace raw)) (Split content newline))
  ∧ extractText_of (lit "") = lit "".
Proof.
  assert (H : extractText_of content = lit ""
    ↔ Forall (λ raw, discardSpec (TrimSpace raw)) (Split content newline)).
  { assert (Hout : extractText_of content = Join (keptLines content) nl) by done.
    rewrite Hout, Join_nil_iff.
    - rewrite keptLines_keepFirst, keepFirst_nil. unfold cleanedLines.
      rewrite omap_nil_Forall. apply Forall_iff. intros raw.
      apply cleanLine_None.
    - apply Forall_forall. intros x Hx.
      by apply keptLines_shape in Hx as [? _]. }
  split_and!; [exact H | exact H | reflexivity].
Qed.



Lemma TrimLeftSpace_spaces (ws s : gostring) :
  Forall (λ r, IsSpace r = true) ws → TrimLeftSpace (ws ++ s) = TrimLeftSpace s.
Proof. induction 1 as [|r ws Hr _ IH]; [done|]. cbn. by rewrite Hr. Qed.

Lemma TrimRightSpace_spaces (ws : gostring) :
  Forall (λ r, IsSpace r = true) ws → TrimRightSpace ws = [].
Proof. induction 1 as [|r ws Hr _ IH]; [done|]. cbn. by rewrite IH, Hr. Qed.

Lemma TrimRightSpace_app_spaces (s ws : gostring) :
  Forall (λ r, IsSpace r = true) ws →
  TrimRightSpace (s ++ ws) = TrimRightSpace s.
Proof.
  intros Hws. induction s as [|r s IH]; cbn.
  - by apply TrimRightSpace_spaces.
  - by rewrite IH.
Qed.

Lemma TrimLeftSpace_app (s ws : gostring) :
  Forall (λ r, IsSpace r = true) ws →
  TrimLeftSpace (s ++ ws) = TrimLeftSpace s ++ ws
  ∨ (TrimLeftSpace s = [] ∧ TrimLeftSpace (s ++ ws) = []).
Proof.
  intros Hws. induction s as [|r s IH]; cbn.
  - right. split; [done|].
    rewrite <- (app_nil_r ws). by rewrite TrimLeftSpace_spaces.
  - destruct (IsSpace r); [done | by left].
Qed.

Lemma TrimSpace_surrounded (ws1 s ws2 : gostring) :
  Forall (λ r, IsSpace r = true) ws1 → Forall (λ r, IsSpace r = true) ws2 →
  TrimSpace (ws1 ++ s ++ ws2) = TrimSpace s.
Proof.
  intros H1 H2. unfold TrimSpace. rewrite TrimLeftSpace_spaces by done.
  destruct (TrimLeftSpace_app s ws2 H2) as [->|[-> ->]]; [|done].
  by apply TrimRightSpace_app_spaces.
Qed.

(** X3: white space around a line, such as indentation or the carriage
    return of a file with CRLF line ends, has no effect on what the line
    loops do with the line. *)
Theorem line_whitespace_ignored (st : loopState) (ws1 raw ws2 : gostring) :
  Forall (λ r, IsSpace r = true) ws1 → Forall (λ r, IsSpace r = true) ws2 →
  extractText_body st (ws1 ++ raw ++ ws2) = extractText_body st raw
  ∧ dedupeVTT_body st (ws1 ++ raw ++ ws2) = dedupeVTT_body st raw.
Proof.
  intros H1 H2. change dedupeVTT_body with extractText_body.
  unfold extractText_body. by rewrite TrimSpace_surrounded.
Qed.

(** The theorem at an indented line with a carriage return. *)
Lemma line_whitespace_ignored_witness :
  extractText_body loopInit (lit "  " ++ lit "<c>hi</c>" ++ [13%N; 32%N])
  = extractText_body loopInit (lit "<c>hi</c>").
Proof.
  apply (line_whitespace_ignored loopInit (lit "  ") (lit "<c>hi</c>")
           [13%N; 32%N]); repeat constructor.
Defined.

Lemma Split_app (a b : gostring) (sep : rune) :
  Split (a ++ sep :: b) sep = Split a sep ++ Split b sep.
Proof.
  induction a as [|r a IH]; cbn.
  - by rewrite N.eqb_refl.
  - destruct (r =? sep)%N; rewrite IH; [done|].
    destruct (Split a sep) eqn:E; [by apply Split_nonempty in E | done].
Qed.

Lemma fold_body_seenInv (lines : list gostring) (st : loopState) :
  seenInv st → seenInv (fold_left extractText_body lines st).
Proof.
  revert st. induction lines as [|raw lines IH]; intros st Hinv; [done|].
  cbn [fold_left]. apply IH. rewrite cleanLine_body.
  destruct (cleanLine raw) as [text|]; [|done].
  destruct (seenAt (seen st) text); [done|]. by apply seenInv_insert.
Qed.

Lemma filter_none (P : gostring → Prop) `{∀ x, Decision (P x)}
    (l : list gostring) :
  Forall (λ x, ¬ P x) l → filter P l = [].
Proof.
  induction 1 as [|x l Hx _ IH]; [done|]. by rewrite filter_cons_False.
Qed.

(** X4: lines whose cleaned text already occurred earlier in the file add
    nothing: a file followed by cues that only repeat its text gives the
    transcript of the file alone.  In particular, a file written twice
    gives the transcript of the file written once. *)
Theorem repeated_text_adds_nothing (c1 c2 : gostring) :
  (∀ text, text ∈ cleanedLines c2 → text ∈ cleanedLines c1) →
  extractText_of (c1 ++ nl ++ c2) = extractText_of c1
  ∧ dedupeVTT_of (c1 ++ nl ++ c2) = dedupeVTT_of c1.
Proof.
  intros Hsub.
  assert (H : extractText_of (c1 ++ nl ++ c2) = extractText_of c1);
    [|by split].
  unfold extractText_of. f_equal.
  change (c1 ++ nl ++ c2) with (c1 ++ newline :: c2).
  rewrite Split_app, fold_left_app.
  set (st1 := fold_left extractText_body (Split c1 newline) loopInit).
  rewrite fold_body_keepFirst by (apply fold_body_seenInv, seenInv_init).
  rewrite filter_none; [by rewrite app_nil_r|].
  apply Forall_forall. intros x Hx Hnot. apply Hnot.
  apply (proj1 (keepFirst_elem _ _)) in Hx.
  change (textLines st1) with (keptLines c1).
  rewrite keptLines_keepFirst. apply keepFirst_elem. by apply Hsub.
Qed.

(** The theorem at a file that is written twice. *)
Lemma repeated_text_adds_nothing_witness :
  extractText_of (cueBlocks (lit "<c> hello</c>") (lit "<c> world</c>") ++ nl
                  ++ cueBlocks (lit "<c> hello</c>") (lit "<c> world</c>"))
  = extractText_of (cueBlocks (lit "<c> hello</c>") (lit "<c> world</c>")).
Proof.
  apply (repeated_text_adds_nothing
           (cueBlocks (lit "<c> hello</c>") (lit "<c> world</c>"))
           (cueBlocks (lit "<c> hello</c>") (lit "<c> world</c>"))).
  by intros text.
Defined.

Lemma stripTags_loop_sublist (s : gostring) (b : bool) :
  stripTags_loop b [] s `sublist_of` s.
Proof.
  revert b. induction s as [|r s IH]; intros b; cbn [stripTags_loop]; [done|].
  destruct (r =? chr "<")%N; [by apply sublist_cons|].
  destruct (r =? chr ">")%N; [by apply sublist_cons|].
  destruct b; cbn [negb]; [by apply sublist_cons|].
  rewrite stripTags_loop_acc. cbn [app]. by apply sublist_skip.
Qed.

(** X5: [stripTags] only removes characters, keeping the others in
    their order, and stripping a second time changes nothing. *)
Theorem stripTags_idempotent (s : gostring) :
  stripTags s `sublist_of` s
  ∧ stripTags (stripTags s) = stripTags s
  ∧ len (stripTags s) ≤ len s.
Proof.
  assert (Hsub : stripTags s `sublist_of` s) by apply stripTags_loop_sublist.
  split_and!; [done | |].
  - apply stripTags_plain; intros H; apply stripTags_loop_elem in H;
      naive_solver.
  - clear -Hsub. induction Hsub as [|x l1 l2 _ IH|x l1 l2 _ IH]; cbn; [lia.. |].
    pose proof (RuneLen_pos x). lia.
Qed.

Lemma sanitizeFilename_app (a b : gostring) :
  sanitizeFilename (a ++ b) = sanitizeFilename a ++ sanitizeFilename b.
Proof.
  induction a as [|r a IH]; [done|].
  cbn [app]. rewrite (sanitizeFilename_cons r (a ++ b)), IH.
  rewrite (sanitizeFilename_cons r a). by rewrite app_assoc.
Qed.

Lemma sanitizeFilename_clean (s : gostring) :
  (∀ r, r ∈ replacedRunes ++ deletedRunes → r ∉ s) → sanitizeFilename s = s.
Proof.
  induction s as [|x s IH]; [done|]. intros Hclean.
  rewrite sanitizeFilename_cons, sanitizeFilename_rune, IH.
  - assert (H1 : x ∉ replacedRunes).
    { intros Hin. apply (Hclean x); [|apply list_elem_of_here].
      apply elem_of_app. by left. }
    assert (H2 : x ∉ deletedRunes).
    { intros Hin. apply (Hclean x); [|apply list_elem_of_here].
      apply elem_of_app. by right. }
    by rewrite (bool_decide_eq_false_2 _ H1), (bool_decide_eq_false_2 _ H2).
  - intros r Hr Hin. apply (Hclean r Hr). by apply list_elem_of_further.
Qed.

Lemma sanitizeFilename_output (s : gostring) (r : rune) :
  r ∈ replacedRunes ++ deletedRunes → r ∉ sanitizeFilename s.
Proof.
  intros Hr. induction s as [|x s IH]; [by intros ?%elem_of_nil|].
  rewrite sanitizeFilename_cons, sanitizeFilename_rune.
  intros [Hin|Hin]%elem_of_app; [|done].
  destruct (bool_decide (x ∈ replacedRunes)) eqn:E1.
  - apply list_elem_of_singleton in Hin as ->. vm_compute in Hr.
    repeat (apply elem_of_cons in Hr as [Hr|Hr]; [discriminate|]).
    by apply elem_of_nil in Hr.
  - destruct (bool_decide (x ∈ deletedRunes)) eqn:E2.
    + by apply elem_of_nil in Hin.
    + apply list_elem_of_singleton in Hin as ->.
      apply bool_decide_eq_false in E1, E2.
      apply elem_of_app in Hr as [?|?]; done.
Qed.

(** X6: [sanitizeFilename] leaves a name without the nine characters as
    it is, so sanitizing twice is the same as sanitizing once; it works
    piece by piece and never makes a name longer. *)
Theorem sanitizeFilename_idempotent (s : gostring) :
  ((∀ r, r ∈ replacedRunes ++ deletedRunes → r ∉ s) → sanitizeFilename s = s)
  ∧ sanitizeFilename (sanitizeFilename s) = sanitizeFilename s
  ∧ (∀ t, sanitizeFilename (s ++ t) = sanitizeFilename s ++ sanitizeFilename t)
  ∧ len (sanitizeFilename s) ≤ len s.
Proof.
  split_and!.
  - apply sanitizeFilename_clean.
  - apply sanitizeFilename_clean. intros r Hr. by apply sanitizeFilename_output.
  - apply sanitizeFilename_app.
  - induction s as [|x s IH]; [done|].
    rewrite sanitizeFilename_cons, sanitizeFilename_rune, len_app.
    cbn [len]. pose proof (RuneLen_pos x).
    destruct (bool_decide (x ∈ replacedRunes));
      [change (len (lit "-")) with 1; lia|].
    destruct (bool_decide (x ∈ deletedRunes));
      [change (len (lit "")) with 0; lia|].
    cbn [len]. lia.
Qed.

(** The theorem at a name without special characters. *)
Lemma sanitizeFilename_idempotent_witness :
  sanitizeFilename (lit "My video - part 1") = lit "My video - part 1".
Proof.
  apply (proj1 (sanitizeFilename_idempotent (lit "My video - part 1"))).
  intros r Hr. vm_compute in Hr. vm_compute.
  repeat (apply elem_of_cons in Hr as [->|Hr];
    [intros Hin;
     repeat (apply elem_of_cons in Hin as [Hin|Hin]; [discriminate|]);
     by apply elem_of_nil in Hin|]).
  by apply elem_of_nil in Hr.
Defined.

(** ** Converting the caption files *)



Section Conversion.
Context {World : Type} (os : OS World).

Lemma Single_Multi_processEntries (dir : gostring) (entries : list gostring) :
  Single.processEntries os dir entries = Multi.processEntries os dir entries.
Proof. reflexivity. Qed.



(** X7: once the directory is listed, [processSubtitles] reports success
    whatever happens to the single files; when the directory cannot be
    listed it returns that error and does nothing more.  This holds in
    both variants. *)
Theorem processSubtitles_result (dir : gostring) (s : State World) :
  (∀ entries e, os_ReadDir os dir (world s) = (entries, Some e) →
     Multi.processSubtitles os dir s
     = (Some e, MkState (world s) (trace s ++ [EvReadDir dir]))
     ∧ Single.processSubtitles os dir s
       = (Some e, MkState (world s) (trace s ++ [EvReadDir dir])))
  ∧ (∀ entries, os_ReadDir os dir (world s) = (entries, None) →
       (Multi.processSubtitles os dir s).1 = None
       ∧ (Single.processSubtitles os dir s).1 = None).
Proof.
  unfold Single.processSubtitles, Multi.processSubtitles, ReadDir.
  munfold. split.
  - intros entries e ->. done.
  - intros entries ->.
    change (@Single.processEntries) with (@Multi.processEntries).
    by destruct (Multi.processEntries os dir entries _).
Qed.


End Conversion.

(** The theorem in an environment where the directory cannot be listed. *)
Lemma processSubtitles_result_witness :
  let os := tableOS (λ _, None) (λ _, None) (λ _, None) in
  Multi.processSubtitles os (lit "out") startState
  = (Some (osError (lit "no such file or directory")),
     MkState tt [EvReadDir (lit "out")]).
Proof.
  intros os.
  apply (proj1 (processSubtitles_result os (lit "out") startState) []).
  reflexivity.
Defined.


(** ** The summary flow *)

Lemma firstVtt_cases (tmpDir : gostring) (entries : list gostring) :
  (streq (Multi.firstVtt tmpDir entries) (lit "") = true
   ∧ Forall (λ name, HasSuffix name (lit ".vtt") = false) entries)
  ∨ (∃ name, name ∈ entries ∧ HasSuffix name (lit ".vtt") = true
       ∧ Multi.firstVtt tmpDir entries = tmpDir ++ lit "/" ++ name
       ∧ streq (Multi.firstVtt tmpDir entries) (lit "") = false).
Proof.
  induction entries as [|name rest IH]; cbn [Multi.firstVtt].
  - left. split; [done | constructor].
  - destruct (HasSuffix name (lit ".vtt")) eqn:Hs.
    + right. exists name. split_and!; [apply list_elem_of_here | done | done |].
      apply streq_false. by destruct tmpDir.
    + destruct IH as [[Heq Hall]|(n & Hn & Hsn & -> & Hne)].
      * left. split; [done | by constructor].
      * right. exists n. split_and!; [by apply list_elem_of_further | done..].
Qed.

Section Summary.
Context {World : Type} (os : OS World).

(** X9: [downloadSummary] removes the temporary directory on every path
    once it was created, as the last thing it does, and until then it only
    runs commands and lists the directory: it writes and removes no file.
    When the directory cannot be created it returns the wrapped error and
    does nothing else. *)
Theorem downloadSummary_cleans_up (url prompt : gostring) (s : State World) :
  (∀ d e w,
     os_MkdirTemp os (lit "") (lit "tuber-summary-") (world s) = ((d, Some e), w) →
     Multi.downloadSummary os url prompt s
     = (Some (wrapError (lit "failed to create temp dir: ") e),
        MkState w (trace s)))
  ∧ (∀ tmpDir w,
       os_MkdirTemp os (lit "") (lit "tuber-summary-") (world s)
       = ((tmpDir, None), w) →
       ∃ evs, trace (Multi.downloadSummary os url prompt s).2
              = trace s ++ evs ++ [EvRemoveAll tmpDir]
         ∧ Forall (λ ev, isReadOnly ev = true) evs).
Proof.
  unfold Multi.downloadSummary, MkdirTemp. munfold. split.
  - intros d e w ->. done.
  - intros tmpDir w ->. unfold Run. cbn [world trace].
    match goal with
    | |- context [os_Run os ?c w] => destruct (os_Run os c w) as [[e|] w1]
    end.
    { eexists [_]. cbn. split; [by rewrite <- app_assoc | by repeat constructor]. }
    unfold ReadDir. cbn [emit world trace].
    destruct (os_ReadDir os tmpDir w1) as [entries [e|]].
    { eexists [_; _]. cbn. split; [by rewrite <- !app_assoc | by repeat constructor]. }
    destruct (streq (Multi.firstVtt tmpDir entries) (lit "")).
    { eexists [_; _]. cbn. split; [by rewrite <- !app_assoc | by repeat constructor]. }
    unfold extractText, ReadFile. munfold. cbn [emit world trace].
    match goal with
    | |- context [os_ReadFile os ?p w1] =>
        destruct (os_ReadFile os p w1) as [content [e|]]
    end.
    { eexists [_; _]. cbn. split; [by rewrite <- !app_assoc | by repeat constructor]. }
    cbn [emit world trace].
    match goal with
    | |- context [os_Run os ?c w1] => destruct (os_Run os c w1) as [r w3]
    end.
    eexists [_; _; _]. cbn. split; [by rewrite <- !app_assoc | by repeat constructor].
Qed.

(** X10: of the summary flow only two commands can run, in this order:
    the fetch of the captions into the temporary directory and, at most
    once, the summarizer, whose standard input is the normalized text of a
    caption file of that directory.  The flow succeeds only if the
    summarizer ran; when the fetch fails or the directory holds no caption
    file, the summarizer is not run and the error says so. *)
Theorem downloadSummary_commands (url prompt : gostring) (s : State World)
    (tmpDir : gostring) (w : World) :
  os_MkdirTemp os (lit "") (lit "tuber-summary-") (world s) = ((tmpDir, None), w) →
  (∃ ran,
     execs (trace (Multi.downloadSummary os url prompt s).2)
     = execs (trace s) ++ summaryFetchCmd tmpDir url :: ran
     ∧ (ran = []
        ∨ ∃ name content,
            HasSuffix name (lit ".vtt") = true
            ∧ readableIn os (tmpDir ++ lit "/" ++ name) content
            ∧ ran = [summarizeCmd prompt (extractText_of content)])
     ∧ ((Multi.downloadSummary os url prompt s).1 = None → ran ≠ []))
  ∧ (∀ e w1,
       os_Run os (summaryFetchCmd tmpDir url) w = (Some e, w1) →
       (Multi.downloadSummary os url prompt s).1
       = Some (wrapError (lit "failed to download subtitles: ") e)
       ∧ execs (trace (Multi.downloadSummary os url prompt s).2)
         = execs (trace s) ++ [summaryFetchCmd tmpDir url])
  ∧ (∀ w1 entries,
       os_Run os (summaryFetchCmd tmpDir url) w = (None, w1) →
       os_ReadDir os tmpDir w1 = (entries, None) →
       Forall (λ name, HasSuffix name (lit ".vtt") = false) entries →
       (Multi.downloadSummary os url prompt s).1
       = Some (errorString (lit "no subtitles found for this video"))
       ∧ execs (trace (Multi.downloadSummary os url prompt s).2)
         = execs (trace s) ++ [summaryFetchCmd tmpDir url]).
Proof.
  intros Hmk. unfold Multi.downloadSummary, MkdirTemp. munfold.
  rewrite Hmk. unfold Run. cbn [world trace].
  fold (summaryFetchCmd tmpDir url).
  split_and!.
  - destruct (os_Run os (summaryFetchCmd tmpDir url) w) as [[e|] w1].
    { exists []. cbn. rewrite !execs_app. cbn. rewrite app_nil_r.
      split_and!; [done | by left | done]. }
    unfold ReadDir. cbn [emit world trace].
    destruct (os_ReadDir os tmpDir w1) as [entries [e|]].
    { exists []. cbn. rewrite !execs_app. cbn. rewrite !app_nil_r.
      split_and!; [done | by left | done]. }
    destruct (firstVtt_cases tmpDir entries)
      as [[-> _]|(name & _ & Hsuf & Hpath & ->)].
    { exists []. cbn. rewrite !execs_app. cbn. rewrite !app_nil_r.
      split_and!; [done | by left | done]. }
    rewrite Hpath. unfold extractText, ReadFile. munfold. cbn [emit world trace].
    destruct (os_ReadFile os (tmpDir ++ lit "/" ++ name) w1)
      as [content [e|]] eqn:Hread.
    { exists []. cbn. rewrite !execs_app. cbn. rewrite !app_nil_r.
      split_and!; [done | by left | done]. }
    cbn [emit world trace]. fold (summarizeCmd prompt (extractText_of content)).
    destruct (os_Run os (summarizeCmd prompt (extractText_of content)) w1)
      as [r w3].
    exists [summarizeCmd prompt (extractText_of content)].
    cbn. rewrite !execs_app. cbn. rewrite !app_nil_r, <- !app_assoc.
    split_and!; [done | | done].
    right. exists name, content. split_and!; [done | by exists w1 | done].
  - intros e w1 ->. cbn. rewrite !execs_app. cbn. by rewrite app_nil_r.
  - intros w1 entries -> Hdir Hall. unfold ReadDir. cbn [emit world trace].
    rewrite Hdir.
    destruct (firstVtt_cases tmpDir entries)
      as [[-> _]|(name & Hin & Hsuf & _)].
    + cbn. rewrite !execs_app. cbn. by rewrite !app_nil_r.
    + rewrite Forall_forall in Hall. specialize (Hall name Hin). congruence.
Qed.

End Summary.

(** The theorem in an environment where the fetch leaves one caption file. *)
Lemma downloadSummary_cleans_up_witness :
  let os := tableOS (λ _, None)
              (λ name, if streq name (lit "/tmp/tuber-summary-1/a.en.vtt")
                       then Some (lit "hi" ++ nl ++ lit "hi") else None)
              (λ _, Some [lit "a.en.vtt"]) in
  ∃ evs, trace (Multi.downloadSummary os (lit "u") (lit "p") startState).2
         = evs ++ [EvRemoveAll (lit "/tmp/tuber-summary-1")]
    ∧ Forall (λ ev, isReadOnly ev = true) evs.
Proof.
  intros os.
  destruct (proj2 (downloadSummary_cleans_up os (lit "u") (lit "p") startState)
              (lit "/tmp/tuber-summary-1") tt) as (evs & Htr & Hall);
    [reflexivity|].
  by exists evs.
Defined.

(** The theorem in the same environment. *)
Lemma downloadSummary_commands_witness :
  let os := tableOS (λ _, None)
              (λ name, if streq name (lit "/tmp/tuber-summary-1/a.en.vtt")
                       then Some (lit "hi" ++ nl ++ lit "hi") else None)
              (λ _, Some [lit "a.en.vtt"]) in
  ∃ ran,
    execs (trace (Multi.downloadSummary os (lit "u") (lit "p") startState).2)
    = summaryFetchCmd (lit "/tmp/tuber-summary-1") (lit "u") :: ran.
Proof.
  intros os.
  destruct (proj1 (downloadSummary_commands os (lit "u") (lit "p") startState
              (lit "/tmp/tuber-summary-1") tt eq_refl)) as (ran & Hran & _).
  by exists ran.
Defined.

(** ** The whole run of the multi-select variant *)

Lemma runInOrder_app {World : Type}
    (l1 l2 : list (M World (option error))) (s : State World) :
  runInOrder (l1 ++ l2) s
  = match runInOrder l1 s with
    | (Some e, s1) => (Some e, s1)
    | (None, s1) => runInOrder l2 s1
    end.
Proof.
  revert s. induction l1 as [|a l1 IH]; intros s; [done|].
  cbn [app runInOrder]. munfold. destruct (a s) as [[e|] s1]; [done|].
  apply IH.
Qed.

Lemma runDownload_runInOrder {World : Type} (os : OS World) (cfg : Config)
    (sched : Multi.Schedule) (url : gostring) (opts : Multi.DownloadOptions)
    (s : State World) :
  Multi.uninterrupted sched →
  let prompt :=
    if streq (Multi.Prompt opts) (lit "") then Multi.defaultPrompt
    else Multi.Prompt opts in
  let run :=
    runInOrder
      (map (Multi.stepAction os cfg url)
         (Multi.steps (Multi.initialDownloadModel url opts))
       ++ (if Multi.Summary opts then [Multi.downloadSummary os url prompt]
           else [])) s in
  Multi.runDownload os cfg sched url opts s = (Some run.1, run.2).
Proof.
  intros Hu prompt run.
  subst run. rewrite runInOrder_app. unfold Multi.runDownload. munfold.
  destruct (Multi.Video opts || Multi.Audio opts || Multi.Subs opts) eqn:Hany.
  - rewrite (runWithSpinner_uninterrupted os cfg sched url opts s Hu).
    destruct (runInOrder _ s) as [[e|] s1]; cbn [fst snd]; [done|].
    destruct (Multi.Summary opts); [|done]. cbn [runInOrder]. munfold.
    fold prompt. by destruct (Multi.downloadSummary os url prompt s1) as [[e|] s2].
  - apply orb_false_iff in Hany as [Hany Hs].
    apply orb_false_iff in Hany as [Hv Ha].
    unfold Multi.initialDownloadModel. cbn [Multi.steps].
    rewrite Hv, Ha, Hs. cbn [app map runInOrder]. munfold.
    destruct (Multi.Summary opts); [|done]. cbn [runInOrder]. munfold.
    fold prompt. by destruct (Multi.downloadSummary os url prompt s) as [[e|] s2].
Qed.

(** X11: when nothing interrupts the download program, [runDownload]
    runs the requested file steps in the order video, audio, subtitles and
    then, if requested, the summary flow, stopping at the first error,
    which it returns; the summary flow gets the built-in prompt when the
    prompt of the request is empty.  With nothing requested it does
    nothing and reports success, whatever reaches it from outside. *)
Theorem runDownload_sequence {World : Type} (os : OS World) (cfg : Config)
    (sched : Multi.Schedule) (url : gostring) (opts : Multi.DownloadOptions)
    (s : State World) :
  let prompt :=
    if streq (Multi.Prompt opts) (lit "") then Multi.defaultPrompt
    else Multi.Prompt opts in
  let run :=
    runInOrder
      (map (Multi.stepAction os cfg url)
         (Multi.steps (Multi.initialDownloadModel url opts))
       ++ (if Multi.Summary opts then [Multi.downloadSummary os url prompt]
           else [])) s in
  (Multi.uninterrupted sched →
   Multi.runDownload os cfg sched url opts s = (Some run.1, run.2))
  ∧ (Multi.Video opts || Multi.Audio opts || Multi.Subs opts
     || Multi.Summary opts = false →
     Multi.runDownload os cfg sched url opts s = (Some None, s)).
Proof.
  intros prompt run.
  split; [intros Hu; by apply runDownload_runInOrder|].
  intros Hnone.
  apply orb_false_iff in Hnone as [Hany Hsum].
  unfold Multi.runDownload. munfold. by rewrite Hany, Hsum.
Qed.

(** The theorem at a request of the video, in an environment where every
    command fails and nothing reaches the program from outside, and at a
    request with no artifact. *)
Lemma runDownload_sequence_witness :
  let os := tableOS (λ _, Some exitStatus1) (λ _, None) (λ _, None) in
  let cfg := MkConfig (lit "") (lit "") in
  Multi.runDownload os cfg Multi.noEvents (lit "u")
    (Multi.MkOptions true false false true (lit "")) startState
  = (Some (Some exitStatus1), MkState tt [EvRun (Multi.videoCmd cfg (lit "u"))])
  ∧ Multi.runDownload os cfg Multi.noEvents (lit "u")
      (Multi.MkOptions false false false false (lit "")) startState
    = (Some None, startState).
Proof.
  intros os cfg. split.
  - apply (proj1 (runDownload_sequence os cfg Multi.noEvents (lit "u")
                    (Multi.MkOptions true false false true (lit "")) startState)).
    intros turn. constructor.
  - apply (proj2 (runDownload_sequence os cfg Multi.noEvents (lit "u")
                    (Multi.MkOptions false false false false (lit "")) startState)).
    reflexivity.
Defined.

(** X24: the key ctrl+c ends the download program without an error.
    When it is the first thing to reach the program, no step has run, and
    [runDownload] goes on to the summary flow if one was requested, and
    reports success otherwise. *)
Theorem interrupt_before_first_step {World : Type} (os : OS World)
    (cfg : Config) (sched : Multi.Schedule) (url : gostring)
    (opts : Multi.DownloadOptions) (s : State World) (later : list Multi.External) :
  sched 0%nat = Multi.extKey (lit "ctrl+c") :: later →
  Multi.runWithSpinner os cfg sched url opts s = (Some None, s)
  ∧ (Multi.Summary opts = false →
     Multi.runDownload os cfg sched url opts s = (Some None, s))
  ∧ (Multi.Summary opts = true →
     let prompt :=
       if streq (Multi.Prompt opts) (lit "") then Multi.defaultPrompt
       else Multi.Prompt opts in
     Multi.runDownload os cfg sched url opts s
     = (Some (Multi.downloadSummary os url prompt s).1,
        (Multi.downloadSummary os url prompt s).2)).
Proof.
  intros Hsched.
  assert (Hrun : Multi.runWithSpinner os cfg sched url opts s = (Some None, s)).
  { unfold Multi.runWithSpinner.
    remember (S (length (Multi.steps (Multi.initialDownloadModel url opts))))
      as fuel eqn:Hfuel.
    munfold. cbn [Multi.teaLoop]. munfold. rewrite Hsched.
    cbn [Multi.deliver Multi.Update].
    change (streq (lit "ctrl+c") (lit "ctrl+c")) with true. done. }
  split_and!; [exact Hrun | |].
  - intros Hsum. unfold Multi.runDownload. munfold. rewrite Hsum.
    destruct (_ || _); [by rewrite Hrun | done].
  - intros Hsum prompt. unfold Multi.runDownload. munfold. rewrite Hsum.
    fold prompt.
    destruct (_ || _); [rewrite Hrun|];
      by destruct (Multi.downloadSummary os url prompt s).
Qed.

(** The theorem for a user who presses ctrl+c at once. *)
Lemma interrupt_before_first_step_witness :
  let os := tableOS (λ _, None) (λ _, None) (λ _, Some []) in
  let cfg := MkConfig (lit "") (lit "") in
  let sched : Multi.Schedule :=
    λ turn, match turn with
            | O => [Multi.extKey (lit "ctrl+c")]
            | _ => []
            end in
  Multi.runWithSpinner os cfg sched (lit "u")
    (Multi.MkOptions true true true false (lit "")) startState
  = (Some None, startState).
Proof.
  intros os cfg sched.
  apply (proj1 (interrupt_before_first_step os cfg sched (lit "u")
                  (Multi.MkOptions true true true false (lit "")) startState []
                  eq_refl)).
Defined.

(** ** The interactive selector: what its updates keep *)

Lemma toggle_length (claude : bool) (checked : list bool) (cursor : Z) :
  length (Multi.toggle claude checked cursor) = length checked.
Proof.
  unfold Multi.toggle. destruct (_ && _); [done|].
  destruct (checked !! _); [apply length_insert | done].
Qed.


Lemma dropLastByte_snoc (s : gostring) (r : rune) :
  RuneLen r = 1 → dropLastByte (s ++ [r]) = Some s.
Proof.
  intros Hr. unfold dropLastByte. rewrite reverse_snoc, Hr. cbn.
  by rewrite reverse_involutive.
Qed.

Section MultiSelector.
Context (claude : bool) (cfg : Config).
Import MultiUI.

Ltac update_cases H :=
  unfold Update in H; repeat case_match; simplify_eq;
  repeat match goal with
  | H' : mbind _ _ = Some _ |- _ =>
      apply bind_Some in H' as (? & ? & ?); simplify_eq
  end.

(** X12: in every model that the selector can reach, the cursor points
    at one of the four menu entries and the slice [checked] has four
    elements, so the index expressions [m.checked[m.cursor]] and
    [m.checked[3]] stay in range. *)
Theorem selector_in_range (url0 : gostring) (m : model) :
  reachable claude cfg url0 m →
  0 ≤ cursor m ≤ 3 ∧ length (checked m) = 4%nat ∧ length (choices m) = 4%nat.
Proof.
  induction 1 as [|m msg m' c _ IH Hupd]; [by cbn|].
  destruct IH as (Hc & Hl & Hn).
  update_cases Hupd; cbn; rewrite ?toggle_length, ?Hn in *;
    repeat match goal with
    | H : (_ <? _) = true |- _ => apply Z.ltb_lt in H
    | H : (_ <? _) = false |- _ => apply Z.ltb_ge in H
    end; split_and!; try done; try lia.
Qed.

(** X13: the selector ends, that is [Update] returns [tea.Quit], in two
    ways only: the user quits, or the user confirms while at least one
    artifact is selected.  Every other update leaves [done] and
    [quitting] unset, so confirming an empty selection does nothing. *)
Theorem selector_quits_with_selection (m m' : model) (msg : SelMsg)
    (c : SelCmd) :
  Update claude cfg m msg = Some (m', c) →
  done m = false → quitting m = false →
  match c with
  | selQuit =>
      (quitting m' = true ∧ done m' = false)
      ∨ (done m' = true ∧ quitting m' = false
         ∧ Multi.Video (getOptions m') || Multi.Audio (getOptions m')
           || Multi.Subs (getOptions m') || Multi.Summary (getOptions m')
           = true)
  | _ => done m' = false ∧ quitting m' = false
  end.
Proof.
  intros Hupd Hd Hq.
  update_cases Hupd; cbn;
    first [ by split | left; by split | right; by split_and! ].
Qed.


End MultiSelector.

Lemma searchDir_of_default_path (o dir name : gostring) :
  dir ≠ lit "" → chr "/" ∉ name →
  Multi.searchDir (MkConfig o (dir ++ lit "/" ++ name)) = dir.
Proof.
  intros Hdir Hname. unfold Multi.searchDir. cbn [customOutPath outputDir].
  change (lit "/") with [chr "/"]. cbn [app].
  rewrite LastIndex_last by done.
  assert (0 < len dir).
  { pose proof (len_nonneg dir).
    destruct (decide (len dir = 0)) as [H0%len_zero|]; [done | lia]. }
  destruct (streq (dir ++ chr "/" :: name) (lit "")) eqn:E.
  { apply streq_true in E. by destruct dir. }
  cbn [negb]. destruct (Z.ltb_spec 0 (len dir)); [|lia].
  apply sliceTo_len.
Qed.

Lemma configured_dir_nonempty (cfg : Config) :
  (if negb (streq (outputDir cfg) (lit "")) then outputDir cfg else lit ".")
  ≠ lit "".
Proof.
  destruct (streq (outputDir cfg) (lit "")) eqn:E; cbn [negb]; [done|].
  by apply streq_false in E.
Qed.

Section MultiSelectorPaths.
Context (claude : bool) (cfg : Config).
Import MultiUI.

(** X15: the output path that the selector proposes, from the title of
    the video or, when the title could not be fetched, the fallback
    [video], lies in the configured output directory ([.] when none is
    configured); taken as the custom path of the download, it makes
    [doDownloadSubs] look for the caption files in that same directory,
    whatever characters the title holds. *)
Theorem selector_default_path (url0 t : gostring) (m : model) :
  let dir :=
    if negb (streq (outputDir cfg) (lit "")) then outputDir cfg else lit "." in
  outPath (initialModel claude cfg url0) = dir ++ lit "/video"
  ∧ Multi.searchDir
      (MkConfig (outputDir cfg) (outPath (initialModel claude cfg url0))) = dir
  ∧ ∃ m', Update claude cfg m (titleMsg t) = Some (m', selNil)
      ∧ state m' = stateMenu
      ∧ outPath m' = dir ++ lit "/" ++ sanitizeFilename t
      ∧ Multi.searchDir (MkConfig (outputDir cfg) (outPath m')) = dir.
Proof.
  intros dir. split_and!.
  - done.
  - apply searchDir_of_default_path; [apply configured_dir_nonempty|].
    vm_compute. intros Hin.
    repeat (apply elem_of_cons in Hin as [Hin|Hin]; [discriminate|]).
    by apply elem_of_nil in Hin.
  - eexists. split; [reflexivity|]. cbn. split_and!; [done | done |].
    apply searchDir_of_default_path; [apply configured_dir_nonempty|].
    apply sanitizeFilename_output. vm_compute. apply list_elem_of_here.
Qed.

(** X16: editing is modal.  While the path or the prompt is edited, a
    key never quits the program (not even ctrl+c or q), never moves the
    cursor and never changes the selection; the output path and the prompt
    change only on enter, and only enter and escape end the editing. *)
Theorem selector_editing_modal (m m' : model) (k : Key) (c : SelCmd) :
  editing m = true → state m ≠ stateURLInput →
  Update claude cfg m (KeyMsg k) = Some (m', c) →
  c = selNil
  ∧ cursor m' = cursor m ∧ checked m' = checked m
  ∧ done m' = done m ∧ quitting m' = quitting m
  ∧ url m' = url m ∧ state m' = state m
  ∧ (keyType k ≠ KeyEnter → outPath m' = outPath m ∧ prompt m' = prompt m)
  ∧ (editing m' = false ↔ keyType k = KeyEnter ∨ keyType k = KeyEscape).
Proof.
  intros He Hs Hupd. unfold Update in Hupd. rewrite He in Hupd.
  destruct (state m) eqn:Est; [done | |];
    destruct (keyType k) eqn:Ek; repeat case_match; simplify_eq;
    repeat match goal with
    | H' : mbind _ _ = Some _ |- _ =>
        apply bind_Some in H' as (? & ? & ?); simplify_eq
    end; cbn; rewrite ?He;
    split_and!; try done; try (split; [done | intros [?|?]; done]);
    try (split; [intros _; first [by left | by right] | done]).
Qed.

(** X17: in the URL prompt and in the editors, typing a character of one
    byte and pressing backspace gives back the text that was there; and
    [Update] has a result for every message that is not a backspace. *)
Theorem selector_type_backspace (m : model) (r : rune) (s1 s2 : gostring) :
  RuneLen r = 1 →
  (state m = stateURLInput →
     ∃ m1 m2,
       Update claude cfg m (KeyMsg (MkKey KeyRunes [r] s1)) = Some (m1, selNil)
       ∧ url m1 = url m ++ [r]
       ∧ Update claude cfg m1 (KeyMsg (MkKey KeyBackspace [] s2)) = Some (m2, selNil)
       ∧ m2 = m)
  ∧ (state m ≠ stateURLInput → editing m = true →
     ∃ m1 m2,
       Update claude cfg m (KeyMsg (MkKey KeyRunes [r] s1)) = Some (m1, selNil)
       ∧ editBuf m1 = editBuf m ++ [r]
       ∧ Update claude cfg m1 (KeyMsg (MkKey KeyBackspace [] s2)) = Some (m2, selNil)
       ∧ m2 = m)
  ∧ (∀ msg, (∀ k, msg = KeyMsg k → keyType k ≠ KeyBackspace) →
       is_Some (Update claude cfg m msg)).
Proof.
  intros Hr.
  assert (Hlen : ∀ s : gostring, (0 <? len (s ++ [r])) = true).
  { intros s. rewrite len_app. cbn. pose proof (len_nonneg s).
    apply Z.ltb_lt. lia. }
  split_and!.
  - intros Hs. destruct m; cbn in Hs; subst.
    eexists _, _. split; [reflexivity|]. split; [reflexivity|].
    split; [|reflexivity].
    unfold Update. cbn. by rewrite Hlen, dropLastByte_snoc.
  - intros Hs He. destruct m as [? ? ? ? ? ? ? ? ? ? st ? ?]; cbn in Hs, He; subst.
    destruct st; [done | |];
      (eexists _, _; split; [reflexivity|]; split; [reflexivity|];
       split; [|reflexivity];
       unfold Update; cbn; by rewrite Hlen, dropLastByte_snoc).
  - intros msg Hk. unfold Update.
    destruct msg as [t|e|k|]; try by eexists.
    specialize (Hk k eq_refl).
    destruct (keyType k); try done; repeat case_match; by eexists.
Qed.

End MultiSelectorPaths.

(** The theorem for ctrl+c while the path is edited. *)
Lemma selector_editing_modal_witness :
  let cfg := MkConfig (lit "") (lit "") in
  let m := MultiUI.with_editing true
             (MultiUI.with_state stateMenu (MultiUI.initialModel true cfg (lit "u"))) in
  MultiUI.Update true cfg m (KeyMsg (MkKey KeyCtrlC [] (lit "ctrl+c")))
  = Some (m, selNil)
  ∧ MultiUI.quitting m = false.
Proof.
  intros cfg m. split; [reflexivity|].
  destruct (selector_editing_modal true cfg m m
              (MkKey KeyCtrlC [] (lit "ctrl+c")) selNil) as (_ & _ & _ & _ & Hq & _);
    [reflexivity | discriminate | reflexivity |].
  reflexivity.
Defined.

(** The theorem after the key down in the menu. *)
Lemma selector_in_range_witness :
  let cfg := MkConfig (lit "") (lit "") in
  let m := MultiUI.with_cursor 1 (MultiUI.initialModel true cfg (lit "u")) in
  0 ≤ MultiUI.cursor m ≤ 3 ∧ length (MultiUI.checked m) = 4%nat
  ∧ length (MultiUI.choices m) = 4%nat.
Proof.
  intros cfg m. apply (selector_in_range true cfg (lit "u") m).
  eapply (MultiUI.reach_step true cfg (lit "u") _
            (KeyMsg (MkKey KeyOther [] (lit "down")))).
  - apply MultiUI.reach_init.
  - reflexivity.
Defined.

(** The theorem for enter with the video selected. *)
Lemma selector_quits_with_selection_witness :
  let cfg := MkConfig (lit "") (lit "") in
  let m := MultiUI.with_checked [true; false; false; false]
             (MultiUI.initialModel true cfg (lit "u")) in
  MultiUI.done (MultiUI.with_done true m) = true
  ∧ Multi.Video (MultiUI.getOptions (MultiUI.with_done true m)) = true.
Proof.
  intros cfg m.
  destruct (selector_quits_with_selection true cfg m (MultiUI.with_done true m)
              (KeyMsg (MkKey KeyEnter [] (lit "enter"))) selQuit)
    as [[Hq _]|(Hd & _ & _)]; [reflexivity | reflexivity | reflexivity | |].
  - discriminate Hq.
  - split; [exact Hd | reflexivity].
Defined.


(** The theorem for the letter a in the URL prompt. *)
Lemma selector_type_backspace_witness :
  let cfg := MkConfig (lit "") (lit "") in
  let m := MultiUI.initialModel true cfg (lit "") in
  ∃ m1 m2,
    MultiUI.Update true cfg m (KeyMsg (MkKey KeyRunes [chr "a"] (lit "a")))
    = Some (m1, selNil)
    ∧ MultiUI.url m1 = MultiUI.url m ++ [chr "a"]
    ∧ MultiUI.Update true cfg m1 (KeyMsg (MkKey KeyBackspace [] (lit "backspace")))
      = Some (m2, selNil)
    ∧ m2 = m.
Proof.
  intros cfg m.
  apply (proj1 (selector_type_backspace true cfg m (chr "a") (lit "a")
                  (lit "backspace") eq_refl)).
  reflexivity.
Defined.

Section SingleSelector.
Context (cfg : Config).
Import SingleUI.


End SingleSelector.


(** ** The entry points *)





Section MainFacts.
Context {World : Type} (os : OS World).



(** X21: in the single-select variant the flags do not combine: the
    first one that is set, in the order -v, -a, -s, -all, -sum, decides,
    and the others are ignored.  A flag without a URL ends the program
    with status 1 before anything is done. *)
Theorem Single_main_first_flag (i : MainInput SingleUI.model)
    (s : State World) :
  (videoFlag i = true →
     Single_main os i s = Single_main os (withFlags true false false false false i) s)
  ∧ (videoFlag i = false → audioFlag i = true →
     Single_main os i s = Single_main os (withFlags false true false false false i) s)
  ∧ (videoFlag i = false → audioFlag i = false → subsFlag i = true →
     Single_main os i s = Single_main os (withFlags false false true false false i) s)
  ∧ (videoFlag i = false → audioFlag i = false → subsFlag i = false →
     allFlag i = true →
     Single_main os i s = Single_main os (withFlags false false false true false i) s)
  ∧ (videoFlag i || audioFlag i || subsFlag i || allFlag i || sumFlag i = true →
     firstArg (args i) = lit "" → Single_main os i s = (1, s)).
Proof.
  unfold Single_main, withFlags. cbn.
  split_and!.
  - by intros ->.
  - by intros -> ->.
  - by intros -> -> ->.
  - by intros -> -> -> ->.
  - intros Hset ->.
    destruct (videoFlag i), (audioFlag i), (subsFlag i), (allFlag i),
      (sumFlag i); done.
Qed.

End MainFacts.



(** The theorem for the flags -v and -a together. *)
Lemma Single_main_first_flag_witness :
  let os := tableOS (λ _, None) (λ _, None) (λ _, None) in
  let cfg := MkConfig (lit "") (lit "") in
  let i := MkMainInput SingleUI.model true true true true false false false
             (lit "") (lit "") [lit "u"]
             (SingleUI.initialModel cfg (lit "u"), None) in
  Single_main os i startState
  = Single_main os (withFlags true false false false false i) startState.
Proof.
  intros os cfg i.
  apply (proj1 (Single_main_first_flag os i startState)). reflexivity.
Defined.

(** ** The subtitle step and the summary of the single-select variant *)

Section SubsStep.
Context {World : Type} (os : OS World) (cfg : Config).

(** X22: the subtitle step fails in two cases only: the fetch command
    fails, and then no directory is read and no file is touched, or the
    directory of the caption files cannot be listed.  It succeeds even
    when the fetch left no caption file.  This holds in both variants. *)
Theorem subs_step_result (url : gostring) (s : State World) :
  (∀ e w, os_Run os (Multi.subsCmd cfg url) (world s) = (Some e, w) →
     Multi.doDownloadSubs os cfg url s
     = (Some e, MkState w (trace s ++ [EvRun (Multi.subsCmd cfg url)])))
  ∧ (∀ w entries de,
       os_Run os (Multi.subsCmd cfg url) (world s) = (None, w) →
       os_ReadDir os (Multi.searchDir cfg) w = (entries, de) →
       (Multi.doDownloadSubs os cfg url s).1 = de)
  ∧ (∀ e w, os_Run os (Single.subsCmd cfg url) (world s) = (Some e, w) →
       Single.downloadSubs os cfg url s
       = (Some e, MkState w (trace s ++ [EvRun (Single.subsCmd cfg url)])))
  ∧ (∀ w entries de,
       os_Run os (Single.subsCmd cfg url) (world s) = (None, w) →
       os_ReadDir os (Single.searchDir cfg) w = (entries, de) →
       (Single.downloadSubs os cfg url s).1 = de).
Proof.
  unfold Multi.doDownloadSubs, Single.downloadSubs, Run,
    Multi.processSubtitles, Single.processSubtitles, ReadDir. munfold.
  split_and!.
  - by intros e w ->.
  - intros w entries de -> Hdir. cbn [emit world]. rewrite Hdir.
    destruct de; [done|]. by destruct (Multi.processEntries os _ _ _).
  - by intros e w ->.
  - intros w entries de -> Hdir. cbn [emit world]. rewrite Hdir.
    destruct de; [done|]. by destruct (Single.processEntries os _ _ _).
Qed.

End SubsStep.

(** The theorem in an environment where the fetch leaves no file. *)
Lemma subs_step_result_witness :
  let os := tableOS (λ _, None) (λ _, None) (λ _, Some []) in
  let cfg := MkConfig (lit "") (lit "") in
  (Multi.doDownloadSubs os cfg (lit "u") startState).1 = None.
Proof.
  intros os cfg.
  apply (proj1 (proj2 (subs_step_result os cfg (lit "u") startState)) tt []).
  - reflexivity.
  - reflexivity.
Defined.

Section SingleSummary.
Context {World : Type} (os : OS World).

(** X23: the summary flow of the single-select variant removes its
    temporary directory on every path once it was created, as the last
    thing it does, and until then it only runs commands and lists the
    directory; of commands it runs the fetch and then, at most once, the
    summarizer. *)
Theorem Single_downloadSummary_cleans_up (url : gostring) (s : State World) :
  (∀ d e w,
     os_MkdirTemp os (lit "") (lit "ytd-summary-") (world s) = ((d, Some e), w) →
     Single.downloadSummary os url s
     = (Some (wrapError (lit "failed to create temp dir: ") e),
        MkState w (trace s)))
  ∧ (∀ tmpDir w,
       os_MkdirTemp os (lit "") (lit "ytd-summary-") (world s)
       = ((tmpDir, None), w) →
       ∃ evs, trace (Single.downloadSummary os url s).2
              = trace s ++ evs ++ [EvRemoveAll tmpDir]
         ∧ Forall (λ ev, isReadOnly ev = true) evs
         ∧ (execs evs = [summaryFetchCmd tmpDir url]
            ∨ ∃ transcript,
                execs evs = [summaryFetchCmd tmpDir url;
                             summarizeCmd Multi.defaultPrompt transcript])).
Proof.
  unfold Single.downloadSummary, MkdirTemp. munfold. split.
  - intros d e w ->. done.
  - intros tmpDir w ->. unfold Run. cbn [world trace].
    fold (summaryFetchCmd tmpDir url).
    destruct (os_Run os (summaryFetchCmd tmpDir url) w) as [[e|] w1].
    { eexists [_]. cbn. split_and!;
        [by rewrite <- app_assoc | by repeat constructor | by left]. }
    unfold ReadDir. cbn [emit world trace].
    destruct (os_ReadDir os tmpDir w1) as [entries [e|]].
    { eexists [_; _]. cbn. split_and!;
        [by rewrite <- !app_assoc | by repeat constructor | by left]. }
    destruct (streq (Single.firstVtt tmpDir entries) (lit "")).
    { eexists [_; _]. cbn. split_and!;
        [by rewrite <- !app_assoc | by repeat constructor | by left]. }
    unfold extractText, ReadFile. munfold. cbn [emit world trace].
    match goal with
    | |- context [os_ReadFile os ?p w1] =>
        destruct (os_ReadFile os p w1) as [content [e|]]
    end.
    { eexists [_; _]. cbn. split_and!;
        [by rewrite <- !app_assoc | by repeat constructor | by left]. }
    cbn [emit world trace].
    match goal with
    | |- context [os_Run os ?c w1] => destruct (os_Run os c w1) as [r w3]
    end.
    eexists [_; _; _]. cbn. split_and!;
      [by rewrite <- !app_assoc | by repeat constructor |].
    right. by eexists.
Qed.

End SingleSummary.

(** The theorem in an environment where the fetch leaves one caption file. *)
Lemma Single_downloadSummary_cleans_up_witness :
  let os := tableOS (λ _, None)
              (λ name, if streq name (lit "/tmp/ytd-summary-1/a.en.vtt")
                       then Some (lit "hi" ++ nl ++ lit "hi") else None)
              (λ _, Some [lit "a.en.vtt"]) in
  ∃ evs, trace (Single.downloadSummary os (lit "u") startState).2
         = evs ++ [EvRemoveAll (lit "/tmp/ytd-summary-1")]
    ∧ Forall (λ ev, isReadOnly ev = true) evs.
Proof.
  intros os.
  destruct (proj2 (Single_downloadSummary_cleans_up os (lit "u") startState)
              (lit "/tmp/ytd-summary-1") tt) as (evs & Htr & Hall & _);
    [reflexivity|].
  by exists evs.
Defined.
